(** * django-openstack-auth: the user and utility layers, embedded and verified

    The development follows [openstack_auth/utils.py] and
    [openstack_auth/user.py].  Python values are modelled by the types the
    code manipulates: byte strings as [string], [None]-able values as
    [option], dictionaries that are read with [d[k]] and [d.get(k)] by
    three-state fields, and code that can raise by a [result] type.
    Collaborators that live outside the repository (the Django permission
    back ends, the identity-service client, the URL library, the string
    method [lower], the request object) are parameters of the definitions
    that call them.  A [string] stands for the UTF-8 encoding of a text,
    so that comparing strings byte by byte is comparing texts code point
    by code point. *)

From stdpp Require Import gmap strings list.
From Stdlib Require Import ZArith QArith Ascii String Lia Sorted.

Local Open Scope Z_scope.

(** ** Python prelude *)

(** Exceptions that the embedded code can raise or let through. *)
Inductive exn : Type :=
| KeyError (key : string)
| TypeError
| OverflowError
| ValueError
| ClientException
| AuthorizationFailure
| OtherException (name : string).

Inductive result (A : Type) : Type :=
| Ok (a : A)
| Raise (e : exn).
Arguments Ok {A} a.
Arguments Raise {A} e.

Global Instance result_ret : MRet result := fun A a => Ok a.

Global Instance result_bind : MBind result := fun A B k r =>
  match r with
  | Ok a => k a
  | Raise e => Raise e
  end.

(** A dictionary entry as the code can observe it: [d[k]] raises on a
    missing key and yields [None] on a null value, [d.get(k)] yields
    [None] for both. *)
Inductive field (A : Type) : Type :=
| Missing
| Null
| Val (a : A).
Arguments Missing {A}.
Arguments Null {A}.
Arguments Val {A} a.

(** [d.get(k)] *)
Definition dict_get {A : Type} (f : field A) : option A :=
  match f with
  | Val a => Some a
  | _ => None
  end.

(** [d[k]] *)
Definition dict_getitem {A : Type} (key : string) (f : field A) : result (option A) :=
  match f with
  | Missing => Raise (KeyError key)
  | Null => Ok None
  | Val a => Ok (Some a)
  end.

(** Truth value of a string-or-None. *)
Definition truthy (v : option string) : bool :=
  match v with
  | Some s => negb (String.eqb s "")
  | None => false
  end.

(** [a or b] on string-or-None values. *)
Definition py_or (a b : option string) : option string :=
  if truthy a then a else b.

(** [x in l] for a list. *)
Definition py_in `{EqDecision A} (x : A) (l : list A) : bool :=
  bool_decide (x ∈ l).

(** What [lower()] does to a text of ASCII characters: only [A]..[Z]
    change. *)
Definition lower_ascii (c : ascii) : ascii :=
  let n := nat_of_ascii c in
  if ((65 <=? n)%nat && (n <=? 90)%nat)%bool then ascii_of_nat (n + 32) else c.

Fixpoint ascii_lower (s : string) : string :=
  match s with
  | EmptyString => EmptyString
  | String c s' => String (lower_ascii c) (ascii_lower s')
  end.

(** A byte below 128, that is, an ASCII character. *)
Definition is_ascii_char (c : ascii) : bool := (nat_of_ascii c <? 128)%nat.

Fixpoint is_ascii_text (s : string) : bool :=
  match s with
  | EmptyString => true
  | String c s' => is_ascii_char c && is_ascii_text s'
  end.

(** ** Authorization predicates ([user.py]) *)

(** An element of the list given to [has_perms]: a permission string, or a
    tuple of alternative permission strings. *)
Inductive perm : Type :=
| PermStr (p : string)
| PermTuple (alternatives : list string).

Section Permissions.

(** [User.has_perm], inherited from the framework's user class, answers
    through the configured permission back ends. *)
Context {Obj : Type}.
Variable has_perm : string -> option Obj -> bool.

(** The [for] loop of [has_a_matching_perm]. *)
Fixpoint has_a_matching_perm_loop (perm_list : list string) (obj : option Obj) : bool :=
  match perm_list with
  | [] => false
  | p :: rest => if has_perm p obj then true else has_a_matching_perm_loop rest obj
  end.

Definition has_a_matching_perm (perm_list : list string) (obj : option Obj) : bool :=
  match perm_list with
  | [] => true
  | _ => has_a_matching_perm_loop perm_list obj
  end.

(** The [for] loop of [has_perms]. *)
Fixpoint has_perms_loop (perm_list : list perm) (obj : option Obj) : bool :=
  match perm_list with
  | [] => true
  | PermStr p :: rest =>
      if negb (has_perm p obj) then false else has_perms_loop rest obj
  | PermTuple alts :: rest =>
      if negb (has_a_matching_perm alts obj) then false else has_perms_loop rest obj
  end.

Definition has_perms (perm_list : list perm) (obj : option Obj) : bool :=
  match perm_list with
  | [] => true
  | _ => has_perms_loop perm_list obj
  end.

End Permissions.

(** ** Settings and clock *)

(** The Django settings the code reads.  A setting read with
    [getattr(settings, name, default)] is optional. *)
Record Settings : Type := {
  USE_TZ : bool;
  DEBUG : bool;
  TOKEN_TIMEOUT_MARGIN : option Z;
  OPENSTACK_API_VERSIONS : option (gmap string Q);
  OPENSTACK_SSL_NO_VERIFY : option bool;
  OPENSTACK_SSL_CACERT : option string;
  WEBSSO_ENABLED : option bool;
  WEBSSO_IDP_MAPPING : option (gmap string (string * string));
  WEBROOT : option string
}.

(** A [datetime]: its calendar and clock fields as microseconds counted
    from 0001-01-01T00:00:00, and its UTC offset in microseconds when it
    is timezone-aware. *)
Record datetime : Type := {
  wall : Z;
  utcoffset : option Z
}.

(** One past [datetime.max] (9999-12-31T23:59:59.999999). *)
Definition MAXWALL : Z := 3652059 * 86400 * 1000000.

(** [datetime.timedelta(seconds=s)] for an integer [s], in microseconds;
    the day count of a [timedelta] is bounded by 999999999. *)
Definition timedelta (seconds : Z) : result Z :=
  let days := seconds / 86400 in
  if (days <? -999999999) || (999999999 <? days) then Raise OverflowError
  else Ok (seconds * 1000000).

(** [d - delta]: the offset is kept, the fields must stay within
    [datetime.min .. datetime.max]. *)
Definition datetime_sub (d : datetime) (delta : Z) : result datetime :=
  let w := wall d - delta in
  if (w <? 0) || (MAXWALL <=? w) then Raise OverflowError
  else Ok {| wall := w; utcoffset := utcoffset d |}.

(** [a > b]: naive values compare by their fields, aware values by their
    UTC instants, and a naive value does not compare with an aware one. *)
Definition datetime_gt (a b : datetime) : result bool :=
  match utcoffset a, utcoffset b with
  | None, None => Ok (wall b <? wall a)
  | Some oa, Some ob => Ok (wall b - ob <? wall a - oa)
  | _, _ => Raise TypeError
  end.

(** [timezone.is_naive] *)
Definition is_naive (d : datetime) : bool :=
  match utcoffset d with
  | None => true
  | Some _ => false
  end.

(** [timezone.make_aware(d, timezone.utc)] *)
Definition make_aware_utc (d : datetime) : datetime :=
  {| wall := wall d; utcoffset := Some 0 |}.

(** What the system clock shows: the fields of [datetime.utcnow()] and of
    [datetime.now()]. *)
Record Clock : Type := {
  utcnow : Z;
  localnow : Z
}.

(** [timezone.now()] *)
Definition timezone_now (settings : Settings) (clock : Clock) : datetime :=
  if USE_TZ settings then {| wall := utcnow clock; utcoffset := Some 0 |}
  else {| wall := localnow clock; utcoffset := None |}.

(** ** Data model ([user.py], the service catalog) *)

Record Role : Type := {
  role_id : string;
  role_name : string
}.

Record Endpoint : Type := {
  ep_url : string;
  ep_region : field string;
  ep_region_id : field string
}.

(** A catalog entry; [endpoints] is read with a default, so it may be
    missing. *)
Record Service : Type := {
  svc_type : field string;
  svc_endpoints : option (list Endpoint)
}.

Record Token : Type := {
  token_id : string;
  token_expires : option datetime;
  token_user_id : option string;
  token_user_name : option string;
  token_user_domain_id : option string;
  token_project_id : option string;
  token_project_name : option string;
  token_domain_id : option string;
  token_domain_name : option string;
  token_roles : list Role;
  token_serviceCatalog : list Service
}.

(** A project as the identity-service client returns it. *)
Record Project : Type := {
  proj_id : string;
  proj_name : string
}.

(** ** Token validity ([utils.py]) *)

Definition is_token_valid (settings : Settings) (clock : Clock)
    (token : Token) (margin : option Z) : result bool :=
  match token_expires token with
  | None => Ok false
  | Some expiration =>
      let margin :=
        match margin with
        | None => default 0 (TOKEN_TIMEOUT_MARGIN settings)
        | Some m => m
        end in
      delta ← timedelta margin;
      expiration ← datetime_sub expiration delta;
      let expiration :=
        if USE_TZ settings && is_naive expiration
        then make_aware_utc expiration else expiration in
      datetime_gt expiration (timezone_now settings clock)
  end.

(** ** String methods used by the URL helpers *)

(** [sub in s] *)
Fixpoint str_contains (sub s : string) : bool :=
  if String.prefix sub s then true
  else match s with
       | EmptyString => false
       | String _ s' => str_contains sub s'
       end.

(** [s.endswith("/")] *)
Fixpoint ends_with_slash (s : string) : bool :=
  match s with
  | EmptyString => false
  | String c EmptyString => Ascii.eqb c "/"
  | String _ s' => ends_with_slash s'
  end.

(** [s[:-1]] *)
Fixpoint drop_last (s : string) : string :=
  match s with
  | EmptyString => EmptyString
  | String _ EmptyString => EmptyString
  | String c s' => String c (drop_last s')
  end.

(** The optional [count] of [str.replace]: absent or negative means every
    occurrence. *)
Definition replace_limit (count : option Z) : option nat :=
  match count with
  | None => None
  | Some c => if c <? 0 then None else Some (Z.to_nat c)
  end.

Definition limit_allows (limit : option nat) : bool :=
  match limit with
  | Some O => false
  | _ => true
  end.

Definition limit_pred (limit : option nat) : option nat :=
  option_map Nat.pred limit.

(** [s.replace(old, new[, count])], scanning left to right: [skip] counts
    the characters of a matched [old] still to be passed over.  For an
    empty [old], [new] is put before every character and at the end. *)
Fixpoint str_replace_go (old new : string) (limit : option nat) (skip : nat)
    (s : string) {struct s} : string :=
  match skip with
  | S k =>
      match s with
      | EmptyString => EmptyString
      | String _ s' => str_replace_go old new limit k s'
      end
  | O =>
      if limit_allows limit && String.prefix old s then
        match s with
        | EmptyString => new
        | String c s' =>
            match String.length old with
            | O => new +:+ String c (str_replace_go old new (limit_pred limit) 0 s')
            | S k => new +:+ str_replace_go old new (limit_pred limit) k s'
            end
        end
      else
        match s with
        | EmptyString => EmptyString
        | String c s' => String c (str_replace_go old new limit 0 s')
        end
  end.

Definition str_replace (s old new : string) (count : option Z) : string :=
  str_replace_go old new (replace_limit count) 0 s.

(** ** URL helpers ([utils.py]) *)

(** The five components [urlsplit] returns. *)
Record SplitResult : Type := {
  scheme : string;
  netloc : string;
  path : string;
  query : string;
  fragment : string
}.

(** The library functions the code calls: [urlsplit] and [urlunsplit] of
    [six.moves.urllib.parse] — [urlsplit] raises on a URL it cannot split
    — and the string method [lower()], which folds the letters of every
    script. *)
Record PyLib : Type := {
  urlsplit : string -> result SplitResult;
  urlunsplit : SplitResult -> string;
  str_lower : string -> string
}.

(** On a text of ASCII characters [lower()] changes [A]..[Z] only. *)
Definition lower_on_ascii (lib : PyLib) : Prop :=
  forall s, is_ascii_text s = true -> str_lower lib s = ascii_lower s.

(** An incoming request: its cookies, and [request.build_absolute_uri]. *)
Record Request : Type := {
  COOKIES : gmap string string;
  request_build_absolute_uri : string -> string
}.

Definition get_keystone_version (settings : Settings) : Q :=
  default (2 # 1)%Q (default ∅ (OPENSTACK_API_VERSIONS settings) !! "identity").

(** [get_keystone_version() >= 3] *)
Definition keystone_v3_plus (settings : Settings) : bool :=
  Qle_bool (3 # 1) (get_keystone_version settings).

Definition is_websso_enabled (settings : Settings) : bool :=
  default false (WEBSSO_ENABLED settings) && keystone_v3_plus settings.

Definition build_absolute_uri (settings : Settings) (request : Request)
    (relative_url : string) : string :=
  let webroot := default "" (WEBROOT settings) in
  let webroot :=
    if ends_with_slash webroot && String.prefix "/" relative_url
    then drop_last webroot else webroot in
  request_build_absolute_uri request (webroot +:+ relative_url).

Definition get_websso_url (settings : Settings) (request : Request)
    (auth_url websso_auth : string) : string :=
  let origin := build_absolute_uri settings request "/auth/websso/" in
  let idp_mapping := default ∅ (WEBSSO_IDP_MAPPING settings) in
  let '(idp_id, protocol_id) :=
    match idp_mapping !! websso_auth with
    | Some (idp, protocol) => (Some idp, protocol)
    | None => (None, websso_auth)
    end in
  if truthy idp_id then
    auth_url +:+ "/auth/OS-FEDERATION/identity_providers/" +:+ default "" idp_id
      +:+ "/protocols/" +:+ protocol_id +:+ "/websso?origin=" +:+ origin
  else
    auth_url +:+ "/auth/OS-FEDERATION/websso/" +:+ protocol_id
      +:+ "?origin=" +:+ origin.

Definition has_in_url_path (lib : PyLib) (url sub : string) : result bool :=
  parts ← urlsplit lib url;
  mret (str_contains sub (path parts)).

Definition url_path_replace (lib : PyLib) (url old new : string)
    (count : option Z) : result string :=
  parts ← urlsplit lib url;
  mret (urlunsplit lib
    {| scheme := scheme parts;
       netloc := netloc parts;
       path := str_replace (path parts) old new count;
       query := query parts;
       fragment := fragment parts |}).

Definition fix_auth_url_version (settings : Settings) (lib : PyLib)
    (auth_url : string) : result string :=
  if keystone_v3_plus settings then
    found ← has_in_url_path lib auth_url "/v2.0";
    if found : bool
    then url_path_replace lib auth_url "/v2.0" "/v3" (Some 1)
    else Ok auth_url
  else Ok auth_url.

(** ** Services regions ([utils.py]) *)

Definition get_endpoint_region (endpoint : Endpoint) : option string :=
  py_or (dict_get (ep_region_id endpoint)) (dict_get (ep_region endpoint)).

(** [service.get('type') is not None and service.get('type') != 'identity'] *)
Definition typed_non_identity (service : Service) : bool :=
  match dict_get (svc_type service) with
  | Some t => negb (String.eqb t "identity")
  | None => false
  end.

(** [service.get('endpoints', [])] *)
Definition endpoints_or_empty (service : Service) : list Endpoint :=
  default [] (svc_endpoints service).

(** The first list comprehension of [default_services_region]. *)
Definition non_identity_regions (catalog : list Service) : list (option string) :=
  flat_map (fun service =>
    flat_map (fun endpoint =>
      if typed_non_identity service then [get_endpoint_region endpoint] else [])
      (endpoints_or_empty service)) catalog.

(** The second one, over every service. *)
Definition all_regions (catalog : list Service) : list (option string) :=
  flat_map (fun service => map get_endpoint_region (endpoints_or_empty service))
    catalog.

Definition default_services_region (service_catalog : option (list Service))
    (request : option Request) : option string :=
  match service_catalog with
  | None | Some [] => None
  | Some catalog =>
      let available_regions := non_identity_regions catalog in
      let available_regions :=
        match available_regions with
        | [] => all_regions catalog
        | _ => available_regions
        end in
      match available_regions with
      | [] => None
      | first :: _ =>
          let selected_region :=
            match request with
            | Some r => default first (Some <$> COOKIES r !! "services_region")
            | None => None
            end in
          if negb (py_in selected_region available_regions) then first
          else selected_region
      end
  end.

(** ** The authorized-projects cache ([utils.py]) *)

(** [verify] of a client session: a flag, or the path of a CA bundle. *)
Inductive Verify : Type :=
| VerifyFlag (b : bool)
| VerifyCACert (cacert : string).

Record Session : Type := {
  session_verify : Verify;
  session_str : string
}.

(** The listing call issued through the identity-service client. *)
Inductive Listing : Type :=
| TenantsList
| FederationProjectsList
| ProjectsList (user : option string).

Record ClientCall : Type := {
  call_session : Session;
  call_auth_url : option string;
  call_token : option string;
  call_listing : Listing
}.

(** The keyword arguments [get_project_list] is called with. *)
Record Kwargs : Type := {
  kw_user_id : field string;
  kw_auth_url : field string;
  kw_token : field string;
  kw_is_federated : option bool;
  kw_session : field Session;
  kw_insecure : option bool;
  kw_cacert : field string;
  kw_debug : option bool
}.

(** The mutable state of the process: the list objects allocated so far
    (a list object is identified by its index), the module-level
    [_PROJECT_CACHE], which maps a key to a list object, and the number
    of listing calls sent to the identity service. *)
Record World : Type := {
  heap : list (list Project);
  _PROJECT_CACHE : gmap string nat;
  upstream_calls : nat
}.

(** Computations that read and write the world and may raise. *)
Definition M (A : Type) : Type := World -> result A * World.

Global Instance M_ret : MRet M := fun A a w => (Ok a, w).

Global Instance M_bind : MBind M := fun A B k m w =>
  match m w with
  | (Ok a, w') => k a w'
  | (Raise e, w') => (Raise e, w')
  end.

Definition lift {A : Type} (r : result A) : M A := fun w => (r, w).

(** [try: body except (classes): handler] *)
Definition try_except {A : Type} (body : M A) (caught : exn -> bool)
    (handler : M A) : M A := fun w =>
  match body w with
  | (Raise e, w') => if caught e then handler w' else (Raise e, w')
  | r => r
  end.

(** A new list object. *)
Definition new_list (l : list Project) : M nat := fun w =>
  (Ok (List.length (heap w)),
   {| heap := heap w ++ [l];
      _PROJECT_CACHE := _PROJECT_CACHE w;
      upstream_calls := upstream_calls w |}).

Definition read_list (ref : nat) : M (list Project) := fun w =>
  (Ok (default [] (heap w !! ref)), w).

Definition cache_lookup (key : string) : M (option nat) := fun w =>
  (Ok (_PROJECT_CACHE w !! key), w).

Definition cache_store (key : string) (ref : nat) : M unit := fun w =>
  (Ok tt,
   {| heap := heap w;
      _PROJECT_CACHE := <[key := ref]> (_PROJECT_CACHE w);
      upstream_calls := upstream_calls w |}).

(** [str(v)] of a value that may be [None]. *)
Definition str_of_field (f : field string) : option string :=
  match f with
  | Missing => None
  | Null => Some "None"
  | Val s => Some s
  end.

Definition str_of_flag (f : option bool) : option string :=
  (fun b : bool => if b then "True" else "False") <$> f.

(** [str(kwargs[key])] when [key in kwargs]. *)
Definition kwarg_str (kwargs : Kwargs) (key : string) : option string :=
  if String.eqb key "user_id" then str_of_field (kw_user_id kwargs)
  else if String.eqb key "auth_url" then str_of_field (kw_auth_url kwargs)
  else if String.eqb key "token" then str_of_field (kw_token kwargs)
  else if String.eqb key "is_federated" then str_of_flag (kw_is_federated kwargs)
  else if String.eqb key "session" then
    match kw_session kwargs with
    | Missing => None
    | Null => Some "None"
    | Val s => Some (session_str s)
    end
  else if String.eqb key "insecure" then str_of_flag (kw_insecure kwargs)
  else if String.eqb key "cacert" then str_of_field (kw_cacert kwargs)
  else if String.eqb key "debug" then str_of_flag (kw_debug kwargs)
  else None.

(** ['__'.join(parts)] *)
Fixpoint join_underscores (parts : list string) : string :=
  match parts with
  | [] => ""
  | [p] => p
  | p :: rest => p +:+ "__" +:+ join_underscores rest
  end.

(** The wrapper built by [memoize_by_keyword_arg(_PROJECT_CACHE, kw_keys)]. *)
Definition memoize_by_keyword_arg (kw_keys : list string)
    (func : Kwargs -> M nat) (kwargs : Kwargs) : M nat :=
  let mem_args := omap (kwarg_str kwargs) kw_keys in
  let mem_args := join_underscores mem_args in
  if String.eqb mem_args "" then func kwargs
  else
    cached ← cache_lookup mem_args;
    match cached with
    | Some ref => mret ref
    | None =>
        result ← func kwargs;
        _ ← cache_store mem_args result;
        mret result
    end.

(** [_PROJECT_CACHE.pop(token, None)]: the keys of the cache are strings,
    so [None] removes nothing. *)
Definition remove_project_cache (token : option string) : M unit := fun w =>
  (Ok tt,
   match token with
   | Some t =>
       {| heap := heap w;
          _PROJECT_CACHE := delete t (_PROJECT_CACHE w);
          upstream_calls := upstream_calls w |}
   | None => w
   end).

Definition get_session (settings : Settings) : Session :=
  let insecure := default false (OPENSTACK_SSL_NO_VERIFY settings) in
  let verify :=
    match OPENSTACK_SSL_CACERT settings with
    | Some cacert => VerifyCACert cacert
    | None => VerifyFlag true
    end in
  let verify := if insecure then VerifyFlag false else verify in
  {| session_verify := verify; session_str := "" |}.

(** [projects.sort(key=lambda project: project.name.lower())]: a stable
    sort on the lowered names. *)
Definition name_key (lib : PyLib) (p : Project) : string :=
  str_lower lib (proj_name p).

Fixpoint insert_by_name (lib : PyLib) (p : Project) (l : list Project)
    : list Project :=
  match l with
  | [] => [p]
  | q :: rest =>
      if String.leb (name_key lib p) (name_key lib q) then p :: q :: rest
      else q :: insert_by_name lib p rest
  end.

Definition sort_by_name (lib : PyLib) (l : list Project) : list Project :=
  foldr (insert_by_name lib) [] l.

Section ProjectList.

(** The identity service behind the client: its answer to the [n]-th
    listing call. *)
Variable keystone : nat -> ClientCall -> result (list Project).
Variable settings : Settings.
Variable lib : PyLib.

(** One listing call through the client. *)
Definition client_list (call : ClientCall) : M (list Project) := fun w =>
  (keystone (upstream_calls w) call,
   {| heap := heap w;
      _PROJECT_CACHE := _PROJECT_CACHE w;
      upstream_calls := S (upstream_calls w) |}).

(** [fix_auth_url_version] on the value of [kwargs['auth_url']]; a [None]
    reaches the URL library only when version 3 is configured. *)
Definition fix_auth_url_version_value (auth_url : option string)
    : result (option string) :=
  match auth_url with
  | Some url => fixed ← fix_auth_url_version settings lib url; mret (Some fixed)
  | None =>
      if keystone_v3_plus settings then Raise (OtherException "AttributeError")
      else Ok None
  end.

(** The body of [get_project_list], before memoization. *)
Definition get_project_list_func (kwargs : Kwargs) : M nat :=
  let is_federated := default false (kw_is_federated kwargs) in
  let sess := default (get_session settings) (dict_get (kw_session kwargs)) in
  auth_url ← lift (dict_getitem "auth_url" (kw_auth_url kwargs));
  auth_url ← lift (fix_auth_url_version_value auth_url);
  token ← lift (dict_getitem "token" (kw_token kwargs));
  let listing :=
    if negb (keystone_v3_plus settings) then TenantsList
    else if is_federated then FederationProjectsList
    else ProjectsList (dict_get (kw_user_id kwargs)) in
  projects ← client_list
    {| call_session := sess; call_auth_url := auth_url;
       call_token := token; call_listing := listing |};
  new_list (sort_by_name lib projects).

Definition get_project_list : Kwargs -> M nat :=
  memoize_by_keyword_arg ["token"] get_project_list_func.

End ProjectList.

(** ** The user object ([user.py]) *)

Record User : Type := {
  id_ : option string;
  pk : option string;
  token : option Token;
  username : option string;
  user_domain_id : option string;
  domain_id : option string;
  domain_name : option string;
  project_id : option string;
  project_name : option string;
  service_catalog : option (list Service);
  _services_region : option string;
  roles : list Role;
  endpoint : option string;
  enabled : bool;
  _authorized_tenants : option nat;
  tenant_id : option string;
  tenant_name : option string
}.

(** The keyword arguments of [User.__init__], each with its default. *)
Record InitArgs : Type := {
  arg_id : option string;
  arg_token : option Token;
  arg_user : option string;
  arg_tenant_id : option string;
  arg_service_catalog : option (list Service);
  arg_tenant_name : option string;
  arg_roles : option (list Role);
  arg_authorized_tenants : option nat;
  arg_endpoint : option string;
  arg_enabled : bool;
  arg_services_region : option string;
  arg_user_domain_id : option string;
  arg_domain_id : option string;
  arg_domain_name : option string;
  arg_project_id : option string;
  arg_project_name : option string
}.

(** The loop of [User.default_services_region]: the catalog is read with
    [service['type']], [service['endpoints']] and [endpoint['region']]. *)
Fixpoint User_default_services_region_loop (catalog : list Service)
    : result (option string) :=
  match catalog with
  | [] => Ok None
  | service :: rest =>
      ty ← dict_getitem "type" (svc_type service);
      if bool_decide (ty = Some "identity")
      then User_default_services_region_loop rest
      else
        match svc_endpoints service with
        | None => Raise (KeyError "endpoints")
        | Some [] => User_default_services_region_loop rest
        | Some (endpoint :: _) => dict_getitem "region" (ep_region endpoint)
        end
  end.

Definition User_default_services_region (catalog : option (list Service))
    : result (option string) :=
  match catalog with
  | None | Some [] => Ok None
  | Some services => User_default_services_region_loop services
  end.

Definition User_init (a : InitArgs) : result User :=
  let project_id := py_or (arg_project_id a) (arg_tenant_id a) in
  let project_name := py_or (arg_project_name a) (arg_tenant_name a) in
  services_region ←
    (if truthy (arg_services_region a) then Ok (arg_services_region a)
     else User_default_services_region (arg_service_catalog a));
  mret {|
    id_ := arg_id a;
    pk := arg_id a;
    token := arg_token a;
    username := arg_user a;
    user_domain_id := arg_user_domain_id a;
    domain_id := arg_domain_id a;
    domain_name := arg_domain_name a;
    project_id := project_id;
    project_name := project_name;
    service_catalog := arg_service_catalog a;
    _services_region := services_region;
    roles := default [] (arg_roles a);
    endpoint := arg_endpoint a;
    enabled := arg_enabled a;
    _authorized_tenants := arg_authorized_tenants a;
    tenant_id := project_id;
    tenant_name := project_name
  |}.

(** [self._authorized_tenants = tenant_list] *)
Definition set_authorized_tenants (self : User) (tenant_list : option nat) : User :=
  {| id_ := id_ self; pk := pk self; token := token self;
     username := username self; user_domain_id := user_domain_id self;
     domain_id := domain_id self; domain_name := domain_name self;
     project_id := project_id self; project_name := project_name self;
     service_catalog := service_catalog self;
     _services_region := _services_region self; roles := roles self;
     endpoint := endpoint self; enabled := enabled self;
     _authorized_tenants := tenant_list;
     tenant_id := tenant_id self; tenant_name := tenant_name self |}.

(** [self._services_region = region] *)
Definition set_services_region (self : User) (region : option string) : User :=
  {| id_ := id_ self; pk := pk self; token := token self;
     username := username self; user_domain_id := user_domain_id self;
     domain_id := domain_id self; domain_name := domain_name self;
     project_id := project_id self; project_name := project_name self;
     service_catalog := service_catalog self;
     _services_region := region; roles := roles self;
     endpoint := endpoint self; enabled := enabled self;
     _authorized_tenants := _authorized_tenants self;
     tenant_id := tenant_id self; tenant_name := tenant_name self |}.

Definition services_region (self : User) : option string := _services_region self.

Definition is_active (self : User) : bool := enabled self.

Definition is_superuser (lib : PyLib) (self : User) : bool :=
  py_in "admin" (map (fun role => str_lower lib (role_name role)) (roles self)).

(** The inner loop of [available_services_regions]. *)
Fixpoint available_regions_of_endpoints (endpoints : list Endpoint)
    (regions : list (option string)) : result (list (option string)) :=
  match endpoints with
  | [] => Ok regions
  | endpoint :: rest =>
      region ← dict_getitem "region" (ep_region endpoint);
      available_regions_of_endpoints rest
        (if negb (py_in region regions) then regions ++ [region] else regions)
  end.

(** Its outer loop. *)
Fixpoint available_regions_of_services (catalog : list Service)
    (regions : list (option string)) : result (list (option string)) :=
  match catalog with
  | [] => Ok regions
  | service :: rest =>
      ty ← dict_getitem "type" (svc_type service);
      if bool_decide (ty = Some "identity")
      then available_regions_of_services rest regions
      else
        match svc_endpoints service with
        | None => Raise (KeyError "endpoints")
        | Some endpoints =>
            regions ← available_regions_of_endpoints endpoints regions;
            available_regions_of_services rest regions
        end
  end.

Definition available_services_regions (self : User) : result (list (option string)) :=
  match service_catalog self with
  | None | Some [] => Ok []
  | Some catalog => available_regions_of_services catalog []
  end.

(** [None] becomes a null entry when passed as a keyword argument. *)
Definition field_of_option {A : Type} (v : option A) : field A :=
  match v with
  | Some a => Val a
  | None => Null
  end.

(** The classes named by the [except] clause of [authorized_tenants]. *)
Definition is_keystone_exception (e : exn) : bool :=
  match e with
  | ClientException | AuthorizationFailure => true
  | _ => false
  end.

Section UserMethods.

Variable keystone : nat -> ClientCall -> result (list Project).
Variable settings : Settings.
Variable lib : PyLib.

(** [check_token_expiration], imported from [utils] by [user.py]. *)
Variable check_token_expiration : Token -> result bool.

Definition is_token_expired (self : User) : result (option bool) :=
  match token self with
  | None => Ok None
  | Some t => valid ← check_token_expiration t; mret (Some (negb valid))
  end.

Definition is_authenticated (self : User) : result bool :=
  match token self with
  | None => Ok false
  | Some t => check_token_expiration t
  end.

Definition is_anonymous (self : User) : result bool :=
  authenticated ← is_authenticated self; mret (negb authenticated).

(** The keyword arguments [authorized_tenants] passes to
    [get_project_list]. *)
Definition project_list_kwargs (self : User) (t : Token) : Kwargs :=
  let insecure := default false (OPENSTACK_SSL_NO_VERIFY settings) in
  let ca_cert := OPENSTACK_SSL_CACERT settings in
  {| kw_user_id := field_of_option (id_ self);
     kw_auth_url := field_of_option (endpoint self);
     kw_token := Val (token_id t);
     kw_is_federated := None;
     kw_session := Missing;
     kw_insecure := Some insecure;
     kw_cacert := field_of_option ca_cert;
     kw_debug := Some (DEBUG settings) |}.

(** The [authorized_tenants] property: the list object it returns, and
    the user object afterwards. *)
Definition authorized_tenants (self : User) : M (nat * User) :=
  authenticated ← lift (is_authenticated self);
  self ←
    match token self with
    | Some t =>
        if authenticated && bool_decide (_authorized_tenants self = None) then
          try_except
            (projects ← get_project_list keystone settings lib
               (project_list_kwargs self t);
             mret (set_authorized_tenants self (Some projects)))
            is_keystone_exception
            (mret self)
        else mret self
    | None => mret self
    end;
  match _authorized_tenants self with
  | Some ref =>
      l ← read_list ref;
      match l with
      | [] => fresh ← new_list []; mret (fresh, self)
      | _ => mret (ref, self)
      end
  | None => fresh ← new_list []; mret (fresh, self)
  end.

End UserMethods.

(** ** The operations of the user object, as a caller sees them *)

(** What an operation hands back. *)
Inductive OpValue : Type :=
| RetNone
| RetBool (b : bool)
| RetOptBool (b : option bool)
| RetStr (s : option string)
| RetRegions (regions : list (option string))
| RetList (ref : nat).

(** The methods and properties of [User]. *)
Inductive UserOp {Obj : Type} : Type :=
| OpUnicode
| OpRepr
| OpIsTokenExpired
| OpIsAuthenticated
| OpIsAnonymous
| OpIsActive
| OpIsSuperuser
| OpGetAuthorizedTenants
| OpSetAuthorizedTenants (tenant_list : option nat)
| OpDefaultServicesRegion
| OpGetServicesRegion
| OpSetServicesRegion (region : option string)
| OpAvailableServicesRegions
| OpSave
| OpDelete
| OpHasPerm (p : string) (obj : option Obj)
| OpHasAMatchingPerm (perm_list : list string) (obj : option Obj)
| OpHasPerms (perm_list : list perm) (obj : option Obj).

Section UserOperations.

Variable keystone : nat -> ClientCall -> result (list Project).
Variable settings : Settings.
Variable lib : PyLib.
Variable check_token_expiration : Token -> result bool.
Context {Obj : Type}.
Variable has_perm : string -> option Obj -> bool.

(** One operation on [self]: its value and the user object afterwards. *)
Definition run_op (op : @UserOp Obj) (self : User) : M (OpValue * User) :=
  match op with
  | OpUnicode => mret (RetStr (username self), self)
  | OpRepr =>
      mret (RetStr (Some ("<User: " +:+ default "None" (username self) +:+ ">")),
            self)
  | OpIsTokenExpired =>
      v ← lift (is_token_expired check_token_expiration self);
      mret (RetOptBool v, self)
  | OpIsAuthenticated =>
      v ← lift (is_authenticated check_token_expiration self);
      mret (RetBool v, self)
  | OpIsAnonymous =>
      v ← lift (is_anonymous check_token_expiration self);
      mret (RetBool v, self)
  | OpIsActive => mret (RetBool (is_active self), self)
  | OpIsSuperuser => mret (RetBool (is_superuser lib self), self)
  | OpGetAuthorizedTenants =>
      r ← authorized_tenants keystone settings lib check_token_expiration self;
      mret (RetList r.1, r.2)
  | OpSetAuthorizedTenants tenant_list =>
      mret (RetNone, set_authorized_tenants self tenant_list)
  | OpDefaultServicesRegion =>
      v ← lift (User_default_services_region (service_catalog self));
      mret (RetStr v, self)
  | OpGetServicesRegion => mret (RetStr (services_region self), self)
  | OpSetServicesRegion region => mret (RetNone, set_services_region self region)
  | OpAvailableServicesRegions =>
      v ← lift (available_services_regions self);
      mret (RetRegions v, self)
  | OpSave => mret (RetNone, self)
  | OpDelete => mret (RetNone, self)
  | OpHasPerm p obj => mret (RetBool (has_perm p obj), self)
  | OpHasAMatchingPerm perm_list obj =>
      mret (RetBool (has_a_matching_perm has_perm perm_list obj), self)
  | OpHasPerms perm_list obj =>
      mret (RetBool (has_perms has_perm perm_list obj), self)
  end.

(** The user object and the world once the operation has returned or
    raised; an operation that raises has not assigned to [self]. *)
Definition user_after (op : @UserOp Obj) (self : User) (w : World) : User * World :=
  match run_op op self w with
  | (Ok (_, self'), w') => (self', w')
  | (Raise _, w') => (self, w')
  end.

(** A sequence of operations, one after the other. *)
Fixpoint run_ops (ops : list (@UserOp Obj)) (self : User) (w : World)
    : User * World :=
  match ops with
  | [] => (self, w)
  | op :: rest => let '(self', w') := user_after op self w in run_ops rest self' w'
  end.

End UserOperations.

(** ** Request and session wiring ([utils.py], [user.py], [urls.py]) *)

(** The user a request resolves to: the framework's anonymous user, or a
    user of this package. *)
Inductive AnyUser : Type :=
| AnonymousUser
| KeystoneUser (u : User).

(** What the code stores in the session. *)
Inductive SessionValue : Type :=
| SessionToken (t : option Token)
| SessionStr (s : option string).

(** The part of the request the wiring reads and writes: the session,
    and the attributes [_cached_user] and [user] once they are set. *)
Record HttpRequest : Type := {
  session : gmap string SessionValue;
  _cached_user : option AnyUser;
  request_user : option AnyUser
}.

(** [django.contrib.auth.SESSION_KEY] and [BACKEND_SESSION_KEY]. *)
Definition SESSION_KEY : string := "_auth_user_id".
Definition BACKEND_SESSION_KEY : string := "_auth_user_backend".

(** An authentication back end: its [get_user], which may look at the
    request it was given. *)
Definition Backend : Type :=
  HttpRequest -> SessionValue -> result (option User).

(** [request.session[key]] *)
Definition session_getitem (request : HttpRequest) (key : string)
    : result SessionValue :=
  match session request !! key with
  | Some v => Ok v
  | None => Raise (KeyError key)
  end.

(** [except KeyError: user = models.AnonymousUser()] *)
Definition anonymous_on_KeyError (r : result AnyUser) : result AnyUser :=
  match r with
  | Raise (KeyError _) => Ok AnonymousUser
  | _ => r
  end.

Section Wiring.

(** [auth.load_backend] *)
Variable load_backend : SessionValue -> result Backend.

Definition get_user (request : HttpRequest) : result AnyUser :=
  anonymous_on_KeyError
    (user_id ← session_getitem request SESSION_KEY;
     backend_path ← session_getitem request BACKEND_SESSION_KEY;
     backend ← load_backend backend_path;
     user ← backend request user_id;
     mret (from_option KeystoneUser AnonymousUser user)).

(** The resolved user, and the request with its [_cached_user]. *)
Definition middleware_get_user (request : HttpRequest)
    : result (AnyUser * HttpRequest) :=
  match _cached_user request with
  | Some cached => Ok (cached, request)
  | None =>
      user ← get_user request;
      mret (user,
            {| session := session request;
               _cached_user := Some user;
               request_user := request_user request |})
  end.

End Wiring.

Definition set_session_from_user (request : HttpRequest) (user : User)
    : HttpRequest :=
  {| session :=
       <["services_region" := SessionStr (services_region user)]>
         (<["region_endpoint" := SessionStr (endpoint user)]>
            (<["user_id" := SessionStr (id_ user)]>
               (<["token" := SessionToken (token user)]> (session request))));
     _cached_user := Some (KeystoneUser user);
     request_user := Some (KeystoneUser user) |}.

(** The arguments [create_user_from_token] hands to [User]. *)
Definition create_user_args (t : Token) (endpoint services_region : option string)
    : InitArgs :=
  {| arg_id := token_user_id t;
     arg_token := Some t;
     arg_user := token_user_name t;
     arg_tenant_id := None;
     arg_service_catalog := Some (token_serviceCatalog t);
     arg_tenant_name := None;
     arg_roles := Some (token_roles t);
     arg_authorized_tenants := None;
     arg_endpoint := endpoint;
     arg_enabled := true;
     arg_services_region := services_region;
     arg_user_domain_id := token_user_domain_id t;
     arg_domain_id := token_domain_id t;
     arg_domain_name := token_domain_name t;
     arg_project_id := token_project_id t;
     arg_project_name := token_project_name t |}.

Definition create_user_from_token (t : Token) (endpoint services_region : option string)
    : result User :=
  User_init (create_user_args t endpoint services_region).

(** A URL pattern of [urls.py]: its regular expression and its name. *)
Record UrlPattern : Type := {
  pattern_regex : string;
  pattern_name : string
}.

Definition urlpatterns (settings : Settings) : list UrlPattern :=
  [{| pattern_regex := "^login/$"; pattern_name := "login" |};
   {| pattern_regex := "^logout/$"; pattern_name := "logout" |};
   {| pattern_regex := "^switch/(?P<tenant_id>[^/]+)/$";
      pattern_name := "switch_tenants" |};
   {| pattern_regex := "^switch_services_region/(?P<region_name>[^/]+)/$";
      pattern_name := "switch_services_region" |}]
  ++ (if is_websso_enabled settings
      then [{| pattern_regex := "^websso/$"; pattern_name := "websso" |}]
      else []).

(** ** A reference library *)

(** A plain reading of [urlsplit] and [urlunsplit] for URLs written
    [scheme://netloc/path?query#fragment], with the library's check of
    the brackets of an IPv6 host, and [lower()] on ASCII texts; used to
    run the code on concrete inputs. *)

Definition is_scheme_char (c : ascii) : bool :=
  let n := nat_of_ascii c in
  ((97 <=? n)%nat && (n <=? 122)%nat) || ((65 <=? n)%nat && (n <=? 90)%nat)
  || ((48 <=? n)%nat && (n <=? 57)%nat)
  || Ascii.eqb c "+" || Ascii.eqb c "-" || Ascii.eqb c ".".

(** [s.split(c, 1)]: the text before the first [c], and the text after it
    when [c] occurs. *)
Fixpoint split_once (c : ascii) (s : string) : string * option string :=
  match s with
  | EmptyString => (EmptyString, None)
  | String d s' =>
      if Ascii.eqb c d then (EmptyString, Some s')
      else let '(before, after) := split_once c s' in (String d before, after)
  end.

(** The longest prefix free of [/], [?] and [#], and the rest. *)
Fixpoint split_netloc (s : string) : string * string :=
  match s with
  | EmptyString => (EmptyString, EmptyString)
  | String d s' =>
      if Ascii.eqb d "/" || Ascii.eqb d "?" || Ascii.eqb d "#" then (EmptyString, s)
      else let '(host, rest) := split_netloc s' in (String d host, rest)
  end.

Fixpoint all_chars (p : ascii -> bool) (s : string) : bool :=
  match s with
  | EmptyString => true
  | String c s' => p c && all_chars p s'
  end.

(** [('[' in netloc and ']' not in netloc) or
    (']' in netloc and '[' not in netloc)] *)
Definition unbalanced_brackets (loc : string) : bool :=
  (str_contains "[" loc && negb (str_contains "]" loc))
  || (str_contains "]" loc && negb (str_contains "[" loc)).

Definition plain_urlsplit (url : string) : result SplitResult :=
  let '(sch, url) :=
    match split_once ":" url with
    | (String c before, Some after) =>
        if all_chars is_scheme_char (String c before)
        then (ascii_lower (String c before), after) else (EmptyString, url)
    | _ => (EmptyString, url)
    end in
  let '(loc, url) :=
    match url with
    | String "/" (String "/" rest) => split_netloc rest
    | _ => (EmptyString, url)
    end in
  if unbalanced_brackets loc then Raise ValueError
  else
    let '(url, frag) := split_once "#" url in
    let '(url, qry) := split_once "?" url in
    Ok {| scheme := sch; netloc := loc; path := url;
          query := default "" qry; fragment := default "" frag |}.

Definition uses_netloc : list string :=
  ["ftp"; "http"; "gopher"; "nntp"; "telnet"; "imap"; "wais"; "file"; "mms";
   "https"; "shttp"; "snews"; "prospero"; "rtsp"; "rtspu"; "rsync"; "svn";
   "svn+ssh"; "sftp"; "nfs"; "git"; "git+ssh"].

Definition nonempty (s : string) : bool := negb (String.eqb s "").

Definition plain_urlunsplit (parts : SplitResult) : string :=
  let url := path parts in
  let url :=
    if nonempty (netloc parts)
       || (nonempty (scheme parts) && py_in (scheme parts) uses_netloc
           && negb (String.prefix "//" url))
    then "//" +:+ netloc parts +:+
         (if nonempty url && negb (String.prefix "/" url) then "/" +:+ url else url)
    else url in
  let url := if nonempty (scheme parts) then scheme parts +:+ ":" +:+ url else url in
  let url := if nonempty (query parts) then url +:+ "?" +:+ query parts else url in
  if nonempty (fragment parts) then url +:+ "#" +:+ fragment parts else url.

Definition plain_lib : PyLib :=
  {| urlsplit := plain_urlsplit;
     urlunsplit := plain_urlunsplit;
     str_lower := ascii_lower |}.

(** ** The statements under test, phrased on the model *)

(** What "the element is satisfied" means in the documentation of
    [has_perms]: a string is held, a tuple has a held alternative. *)
Definition claimed_satisfied {Obj : Type} (has_perm : string -> option Obj -> bool)
    (obj : option Obj) (e : perm) : Prop :=
  match e with
  | PermStr p => has_perm p obj = true
  | PermTuple alts => exists p, p ∈ alts /\ has_perm p obj = true
  end.

(** What the code accepts: an empty tuple passes as well. *)
Definition satisfied {Obj : Type} (has_perm : string -> option Obj -> bool)
    (obj : option Obj) (e : perm) : Prop :=
  match e with
  | PermStr p => has_perm p obj = true
  | PermTuple alts => alts = [] \/ exists p, p ∈ alts /\ has_perm p obj = true
  end.

(** [sub] occurs in [s] between [before] and [after]. *)
Definition occurs_at (sub s before after : string) : Prop :=
  s = before +:+ sub +:+ after.

(** ... and no occurrence of [sub] starts further left. *)
Definition first_occurrence (sub s before after : string) : Prop :=
  occurs_at sub s before after /\
  forall before' after', occurs_at sub s before' after' ->
    (String.length before <= String.length before')%nat.


(** The region selection as its documentation words it: the first
    endpoint region of the first service that is not the identity
    service, unless the cookie names a region of such a service. *)
Definition claimed_default_services_region (service_catalog : option (list Service))
    (request : option Request) : option string :=
  match service_catalog with
  | None | Some [] => None
  | Some catalog =>
      let non_identity service :=
        negb (bool_decide (dict_get (svc_type service) = Some "identity")) in
      let first_choice :=
        service ← List.find non_identity catalog;
        endpoint ← head (endpoints_or_empty service);
        get_endpoint_region endpoint in
      match request ≫= (fun r => COOKIES r !! "services_region") with
      | Some c =>
          if py_in (Some c) (all_regions (List.filter non_identity catalog))
          then Some c else first_choice
      | None => first_choice
      end
  end.

(** The regions the code chooses from: those of the services with a type
    other than identity, or, when there is none, those of every service. *)
Definition available_regions (catalog : list Service) : list (option string) :=
  match all_regions (List.filter typed_non_identity catalog) with
  | [] => all_regions catalog
  | regions => regions
  end.

(** The deprecated aliases hold the values of their project
    counterparts. *)
Definition synchronized (u : User) : Prop :=
  tenant_id u = project_id u /\ tenant_name u = project_name u.

(** Two characters that are equal, or are the two cases of one of the
    letters [A]..[Z]. *)
Definition same_letter (c d : ascii) : Prop :=
  c = d \/
  exists n : nat,
    (65 <= n <= 90)%nat /\
    ((c = ascii_of_nat n /\ d = ascii_of_nat (n + 32)) \/
     (d = ascii_of_nat n /\ c = ascii_of_nat (n + 32))).

(** Two texts that differ in the case of ASCII letters at most. *)
Fixpoint caseless_eq (s t : string) : Prop :=
  match s, t with
  | EmptyString, EmptyString => True
  | String c s', String d t' => same_letter c d /\ caseless_eq s' t'
  | _, _ => False
  end.

(** The identity service does not accept an empty token: a listing call
    that presents one is refused. *)
Definition client_refuses_empty_token
    (keystone : nat -> ClientCall -> result (list Project)) : Prop :=
  forall n call, call_token call = Some "" -> exists e, keystone n call = Raise e.

(** The margin [is_token_valid] uses, in seconds. *)
Definition effective_margin (settings : Settings) (margin : option Z) : Z :=
  match margin with
  | None => default 0 (TOKEN_TIMEOUT_MARGIN settings)
  | Some m => m
  end.

(** The margin fits a [timedelta] and the expiry minus the margin is a
    representable [datetime]. *)
Definition margin_representable (expiration : datetime) (m : Z) : Prop :=
  -999999999 <= m / 86400 <= 999999999 /\
  0 <= wall expiration - m * 1000000 < MAXWALL.

(** The expiry can be compared with [timezone.now()]: the framework is
    timezone-aware, or both values are naive. *)
Definition comparable_with_now (settings : Settings) (expiration : datetime) : Prop :=
  USE_TZ settings = true \/ utcoffset expiration = None.

(** The instant a [datetime] denotes, a naive one being taken as UTC. *)
Definition instant (d : datetime) : Z := wall d - default 0 (utcoffset d).

(** ** Sample configurations and inputs *)

(** The settings of [tests/settings.py]. *)
Definition test_settings : Settings :=
  {| USE_TZ := true;
     DEBUG := false;
     TOKEN_TIMEOUT_MARGIN := None;
     OPENSTACK_API_VERSIONS := Some {[ "identity" := (3 # 1)%Q ]};
     OPENSTACK_SSL_NO_VERIFY := None;
     OPENSTACK_SSL_CACERT := None;
     WEBSSO_ENABLED := None;
     WEBSSO_IDP_MAPPING := None;
     WEBROOT := None |}.

(** The same deployment with [USE_TZ = False]. *)
Definition naive_settings : Settings :=
  {| USE_TZ := false;
     DEBUG := false;
     TOKEN_TIMEOUT_MARGIN := None;
     OPENSTACK_API_VERSIONS := Some {[ "identity" := (3 # 1)%Q ]};
     OPENSTACK_SSL_NO_VERIFY := None;
     OPENSTACK_SSL_CACERT := None;
     WEBSSO_ENABLED := None;
     WEBSSO_IDP_MAPPING := None;
     WEBROOT := None |}.

(** 2015-01-01T00:00:00 on both clocks. *)
Definition sample_clock : Clock :=
  {| utcnow := 735598 * 86400 * 1000000; localnow := 735598 * 86400 * 1000000 |}.

Definition token_expiring (expires : option datetime) : Token :=
  {| token_id := "0123456789abcdef";
     token_expires := expires;
     token_user_id := Some "u1";
     token_user_name := Some "gabriel";
     token_user_domain_id := Some "d1";
     token_project_id := Some "p1";
     token_project_name := Some "tenant_one";
     token_domain_id := Some "d1";
     token_domain_name := Some "domain";
     token_roles := [];
     token_serviceCatalog := [] |}.

(** One day after [sample_clock], as a UTC-aware and as a naive value. *)
Definition tomorrow_aware : datetime :=
  {| wall := 735599 * 86400 * 1000000; utcoffset := Some 0 |}.

Definition tomorrow_naive : datetime :=
  {| wall := 735599 * 86400 * 1000000; utcoffset := None |}.

(** A deployment that maps one WebSSO choice to an IdP and protocol. *)
Definition websso_settings (mapping : gmap string (string * string)) : Settings :=
  {| USE_TZ := true;
     DEBUG := false;
     TOKEN_TIMEOUT_MARGIN := None;
     OPENSTACK_API_VERSIONS := Some {[ "identity" := (3 # 1)%Q ]};
     OPENSTACK_SSL_NO_VERIFY := None;
     OPENSTACK_SSL_CACERT := None;
     WEBSSO_ENABLED := Some true;
     WEBSSO_IDP_MAPPING := Some mapping;
     WEBROOT := Some "/dashboard/" |}.

(** A request to [http://testserver], with the given cookies. *)
Definition test_request (cookies : gmap string string) : Request :=
  {| COOKIES := cookies;
     request_build_absolute_uri := fun location => "http://testserver" +:+ location |}.

(** The catalog of [tests/data_v3.py]: the identity service and a
    compute service with endpoints in two regions. *)
Definition endpoint_in (url region : string) : Endpoint :=
  {| ep_url := url; ep_region := Val region; ep_region_id := Missing |}.

Definition keystone_service : Service :=
  {| svc_type := Val "identity";
     svc_endpoints := Some
       [endpoint_in "http://admin.localhost:35357/v3" "RegionOne";
        endpoint_in "http://internal.localhost:5000/v3" "RegionOne";
        endpoint_in "http://public.localhost:5000/v3" "RegionOne"] |}.

Definition nova_service : Service :=
  {| svc_type := Val "compute";
     svc_endpoints := Some
       [endpoint_in "http://nova-admin.localhost:8774/v2.0/p1" "RegionOne";
        endpoint_in "http://nova-internal.localhost:8774/v2.0/p1" "RegionOne";
        endpoint_in "http://nova-public.localhost:8774/v2.0/p1" "RegionOne";
        endpoint_in "http://nova2-admin.localhost:8774/v2.0/p1" "RegionTwo";
        endpoint_in "http://nova2-internal.localhost:8774/v2.0/p1" "RegionTwo";
        endpoint_in "http://nova2-public.localhost:8774/v2.0/p1" "RegionTwo"] |}.

(** The world at process start. *)
Definition empty_world : World :=
  {| heap := []; _PROJECT_CACHE := ∅; upstream_calls := 0 |}.

(** An identity service that lists the two projects of the test data,
    and one that rejects every call. *)
Definition two_projects : list Project :=
  [{| proj_id := "p2"; proj_name := "tenant_two" |};
   {| proj_id := "p1"; proj_name := "Tenant_one" |}].

Definition keystone_listing (n : nat) (call : ClientCall) : result (list Project) :=
  match call_token call with
  | None | Some "" => Raise AuthorizationFailure
  | Some _ => Ok two_projects
  end.

Definition keystone_rejecting (n : nat) (call : ClientCall) : result (list Project) :=
  Raise AuthorizationFailure.

Definition kwargs_with_token (t : string) : Kwargs :=
  {| kw_user_id := Val "u1";
     kw_auth_url := Val "http://localhost:5000/v3";
     kw_token := Val t;
     kw_is_federated := None;
     kw_session := Missing;
     kw_insecure := Some false;
     kw_cacert := Null;
     kw_debug := Some false |}.

(** The user [create_user_from_token] builds for the scoped token of the
    test data. *)
Definition test_init_args : InitArgs :=
  {| arg_id := Some "u1";
     arg_token := Some (token_expiring (Some tomorrow_aware));
     arg_user := Some "gabriel";
     arg_tenant_id := None;
     arg_service_catalog := Some [keystone_service; nova_service];
     arg_tenant_name := None;
     arg_roles := Some [{| role_id := "r1"; role_name := "Member" |}];
     arg_authorized_tenants := None;
     arg_endpoint := Some "http://localhost:5000/v3";
     arg_enabled := true;
     arg_services_region := None;
     arg_user_domain_id := Some "d1";
     arg_domain_id := Some "d1";
     arg_domain_name := Some "domain";
     arg_project_id := Some "p1";
     arg_project_name := Some "tenant_one" |}.

Definition test_user : User :=
  {| id_ := Some "u1"; pk := Some "u1";
     token := Some (token_expiring (Some tomorrow_aware));
     username := Some "gabriel";
     user_domain_id := Some "d1"; domain_id := Some "d1";
     domain_name := Some "domain";
     project_id := Some "p1"; project_name := Some "tenant_one";
     service_catalog := Some [keystone_service; nova_service];
     _services_region := Some "RegionOne";
     roles := [{| role_id := "r1"; role_name := "Member" |}];
     endpoint := Some "http://localhost:5000/v3"; enabled := true;
     _authorized_tenants := None;
     tenant_id := Some "p1"; tenant_name := Some "tenant_one" |}.

(** A token check that accepts every token. *)
Definition always_valid (t : Token) : result bool := Ok true.

(** A permission back end that grants the listed permissions. *)
Definition has_perm_of (held : list string) (p : string) (obj : option unit) : bool :=
  py_in p held.

(** A user without token that carries the given roles. *)
Definition user_with_roles (rs : list Role) : User :=
  {| id_ := Some "u1"; pk := Some "u1"; token := None;
     username := Some "gabriel";
     user_domain_id := None; domain_id := None; domain_name := None;
     project_id := None; project_name := None; service_catalog := None;
     _services_region := None; roles := rs; endpoint := None; enabled := true;
     _authorized_tenants := None; tenant_id := None; tenant_name := None |}.

(** The order [projects.sort] establishes: by lowered name. *)
Definition name_le (lib : PyLib) (p q : Project) : Prop :=
  String.leb (name_key lib p) (name_key lib q) = true.

(** [r] is the region of an endpoint of a catalog service that is not
    the identity service, as [available_services_regions] reads it. *)
Definition region_of_non_identity_endpoint (catalog : list Service)
    (r : option string) : Prop :=
  exists s es e,
    s ∈ catalog /\ svc_type s <> Val "identity" /\
    svc_endpoints s = Some es /\ e ∈ es /\
    dict_getitem "region" (ep_region e) = Ok r.

(** A catalog as the identity service sends it: every service has a type
    and a list of endpoints, every endpoint a [region] string and no
    [region_id]. *)
Definition plain_catalog (catalog : list Service) : Prop :=
  forall s, s ∈ catalog ->
    (exists ty, svc_type s = Val ty) /\
    exists es, svc_endpoints s = Some es /\
      forall e, e ∈ es ->
        ep_region_id e = Missing /\ exists r, ep_region e = Val r.

(** A request that carries no session data yet. *)
Definition fresh_request : HttpRequest :=
  {| session := ∅; _cached_user := None; request_user := None |}.

(** A request whose session names a user and a back end. *)
Definition logged_in_request : HttpRequest :=
  {| session := {[ SESSION_KEY := SessionStr (Some "u1");
                   BACKEND_SESSION_KEY :=
                     SessionStr (Some "openstack_auth.backend.KeystoneBackend") ]};
     _cached_user := None; request_user := None |}.

(** Back-end loaders: one whose back end knows [test_user], one that
    cannot be loaded. *)
Definition load_test_backend (backend_path : SessionValue) : result Backend :=
  Ok (fun request user_id => Ok (Some test_user)).

Definition load_broken_backend (backend_path : SessionValue) : result Backend :=
  Raise (OtherException "ImproperlyConfigured").

(** Keyword arguments without [auth_url]. *)
Definition kwargs_without_auth_url (t : string) : Kwargs :=
  {| kw_user_id := Val "u1";
     kw_auth_url := Missing;
     kw_token := Val t;
     kw_is_federated := None;
     kw_session := Missing;
     kw_insecure := Some false;
     kw_cacert := Null;
     kw_debug := Some false |}.

(** An identity service whose client fails with an exception that is
    not one of its own classes. *)
Definition keystone_faulty (n : nat) (call : ClientCall) : result (list Project) :=
  Raise ValueError.

(** A world that holds one list object, the two projects. *)
Definition world_with_projects : World :=
  {| heap := [two_projects]; _PROJECT_CACHE := ∅; upstream_calls := 0 |}.

(** A scoped token that carries the given roles. *)
Definition token_with_roles (rs : list Role) : Token :=
  {| token_id := "0123456789abcdef";
     token_expires := Some tomorrow_aware;
     token_user_id := Some "u1";
     token_user_name := Some "gabriel";
     token_user_domain_id := Some "d1";
     token_project_id := Some "p1";
     token_project_name := Some "tenant_one";
     token_domain_id := Some "d1";
     token_domain_name := Some "domain";
     token_roles := rs;
     token_serviceCatalog := [] |}.

(** * Properties *)

(** ** Authorization predicates *)

Section PermissionsFacts.

Context {Obj : Type}.
Variable has_perm : string -> option Obj -> bool.

Lemma has_a_matching_perm_loop_true (alts : list string) (obj : option Obj) :
  has_a_matching_perm_loop has_perm alts obj = true <->
  exists p, p ∈ alts /\ has_perm p obj = true.
Proof.
  induction alts as [|a alts IH]; simpl.
  - split; [discriminate|]. intros (p & Hp & _). by apply elem_of_nil in Hp.
  - destruct (has_perm a obj) eqn:Ha.
    + split; [|done]. intros _. exists a. split; [left|done].
    + rewrite IH. split.
      * intros (p & Hp & Hh). exists p. split; [by right|done].
      * intros (p & Hp & Hh). apply elem_of_cons in Hp as [->|Hp]; [congruence|].
        by exists p.
Qed.

Lemma has_a_matching_perm_true (alts : list string) (obj : option Obj) :
  has_a_matching_perm has_perm alts obj = true <->
  alts = [] \/ exists p, p ∈ alts /\ has_perm p obj = true.
Proof.
  destruct alts as [|a alts].
  - simpl. split; [by left|done].
  - unfold has_a_matching_perm. rewrite has_a_matching_perm_loop_true.
    split; [by right|]. by intros [?|?].
Qed.

Lemma has_perms_loop_true (perm_list : list perm) (obj : option Obj) :
  has_perms_loop has_perm perm_list obj = true <->
  Forall (satisfied has_perm obj) perm_list.
Proof.
  induction perm_list as [|e perm_list IH]; simpl.
  - split; [constructor|done].
  - rewrite Forall_cons, <- IH. destruct e as [p|alts]; simpl.
    + destruct (has_perm p obj); simpl; [tauto|]. split; [done|]. by intros [? _].
    + rewrite <- has_a_matching_perm_true.
      destruct (has_a_matching_perm has_perm alts obj); simpl; [tauto|].
      split; [done|]. by intros [? _].
Qed.

(** C1, as the code has it: [has_perms] is the conjunction over the list
    of "the permission string is held" and "the tuple is empty or one of
    its alternatives is held"; the empty list is accepted. *)
Theorem has_perms_and_of_or (perm_list : list perm) (obj : option Obj) :
  (has_perms has_perm perm_list obj = true <->
   Forall (satisfied has_perm obj) perm_list) /\
  has_perms has_perm [] obj = true.
Proof.
  split; [|done].
  destruct perm_list as [|e perm_list].
  - simpl. split; [constructor|done].
  - unfold has_perms. apply has_perms_loop_true.
Qed.

(** C10: an empty tuple is accepted by [has_a_matching_perm], hence by
    [has_perms], whatever the user holds, although none of its (zero)
    alternatives is held. *)
Theorem empty_tuple_vacuously_satisfied (obj : option Obj) :
  has_a_matching_perm has_perm [] obj = true /\
  has_perms has_perm [PermTuple []] obj = true /\
  ~ (exists p, p ∈ ([] : list string) /\ has_perm p obj = true).
Proof.
  repeat split. intros (p & Hp & _). by apply elem_of_nil in Hp.
Qed.

End PermissionsFacts.

(** C1 as stated fails: for a user holding nothing, the list [[()]] is
    accepted although its tuple offers no held permission. *)
Lemma has_perms_claim_fails_on_empty_tuple :
  ~ (has_perms (Obj := unit) (fun _ _ => false) [PermTuple []] None = true <->
     Forall (claimed_satisfied (Obj := unit) (fun _ _ => false) None) [PermTuple []]).
Proof.
  intros [H _]. specialize (H eq_refl).
  apply Forall_cons in H as [(p & Hp & _) _]. by apply elem_of_nil in Hp.
Qed.

Lemma has_perms_examples :
  has_perms (has_perm_of ["a"; "c"]) [PermStr "a"; PermTuple ["b"; "c"]] None = true /\
  has_perms (has_perm_of ["a"]) [PermStr "a"; PermTuple ["b"; "c"]] None = false /\
  has_perms (has_perm_of ["b"; "c"]) [PermStr "a"; PermTuple ["b"; "c"]] None = false /\
  has_perms (has_perm_of ["b"]) [PermTuple ["a"; "b"]] None = true /\
  has_perms (has_perm_of []) [PermTuple ["a"; "b"]] None = false /\
  has_perms (has_perm_of []) [] None = true.
Proof.
  vm_compute. done.
Qed.

(** ** Superuser *)

Lemma lower_admin_elem (lib : PyLib) (rs : list Role) :
  "admin" ∈ map (fun role => str_lower lib (role_name role)) rs <->
  exists r, r ∈ rs /\ str_lower lib (role_name r) = "admin".
Proof.
  rewrite list_elem_of_fmap. split.
  - intros (r & Heq & Hr). by exists r.
  - intros (r & Hr & Heq). by exists r.
Qed.

Lemma ascii_of_nat_inj (a b : nat) :
  (a < 256)%nat -> (b < 256)%nat -> ascii_of_nat a = ascii_of_nat b -> a = b.
Proof.
  intros Ha Hb Heq. apply (f_equal nat_of_ascii) in Heq.
  by rewrite !nat_ascii_embedding in Heq.
Qed.

Lemma lower_ascii_nat (c : ascii) :
  lower_ascii c =
  ascii_of_nat (if ((65 <=? nat_of_ascii c)%nat && (nat_of_ascii c <=? 90)%nat)%bool
                then nat_of_ascii c + 32 else nat_of_ascii c).
Proof.
  unfold lower_ascii.
  destruct ((65 <=? nat_of_ascii c)%nat && (nat_of_ascii c <=? 90)%nat)%bool;
    [done|]. by rewrite ascii_nat_embedding.
Qed.

Lemma same_letter_nat (c d : ascii) :
  same_letter c d <->
  nat_of_ascii c = nat_of_ascii d \/
  ((65 <= nat_of_ascii c <= 90)%nat /\ nat_of_ascii d = (nat_of_ascii c + 32)%nat) \/
  ((65 <= nat_of_ascii d <= 90)%nat /\ nat_of_ascii c = (nat_of_ascii d + 32)%nat).
Proof.
  unfold same_letter. split.
  - intros [->|(k & Hk & [[-> ->]|[-> ->]])]; [by left|..];
      rewrite !nat_ascii_embedding by lia; [right; left|right; right]; lia.
  - pose proof (ascii_nat_embedding c) as Ec.
    pose proof (ascii_nat_embedding d) as Ed.
    intros [Heq|[[Hn Hm]|[Hm Hn]]].
    + left. by rewrite <- Ec, <- Ed, Heq.
    + right. exists (nat_of_ascii c). split; [done|]. left.
      split; [done|]. by rewrite <- Hm.
    + right. exists (nat_of_ascii d). split; [done|]. right.
      split; [done|]. by rewrite <- Hn.
Qed.

(** Folding the case of two characters gives the same character exactly
    when they are the same letter. *)
Lemma lower_ascii_same_letter (c d : ascii) :
  lower_ascii c = lower_ascii d <-> same_letter c d.
Proof.
  rewrite same_letter_nat, !lower_ascii_nat.
  pose proof (nat_ascii_bounded c) as Hc. pose proof (nat_ascii_bounded d) as Hd.
  set (n := nat_of_ascii c) in *. set (m := nat_of_ascii d) in *.
  split.
  - intros Heq. apply ascii_of_nat_inj in Heq.
    + destruct (Nat.leb_spec 65 n), (Nat.leb_spec n 90), (Nat.leb_spec 65 m),
        (Nat.leb_spec m 90); simpl in Heq; lia.
    + destruct (Nat.leb_spec 65 n), (Nat.leb_spec n 90); simpl; lia.
    + destruct (Nat.leb_spec 65 m), (Nat.leb_spec m 90); simpl; lia.
  - intros H. f_equal.
    destruct (Nat.leb_spec 65 n), (Nat.leb_spec n 90), (Nat.leb_spec 65 m),
      (Nat.leb_spec m 90); simpl; lia.
Qed.

Lemma ascii_lower_caseless (s t : string) :
  ascii_lower s = ascii_lower t <-> caseless_eq s t.
Proof.
  revert t. induction s as [|c s IH]; intros [|d t]; simpl; try done.
  rewrite <- IH, <- lower_ascii_same_letter. split.
  - by intros [= ? ?].
  - by intros [-> ->].
Qed.

(** Among roles with ASCII names, one is lowered to ["admin"] exactly
    when one is named admin in some mix of cases. *)
Lemma lower_admin_caseless (lib : PyLib) (rs : list Role) :
  lower_on_ascii lib ->
  (forall r, r ∈ rs -> is_ascii_text (role_name r) = true) ->
  "admin" ∈ map (fun role => str_lower lib (role_name role)) rs <->
  exists r, r ∈ rs /\ caseless_eq (role_name r) "admin".
Proof.
  intros Hlaw Hascii. rewrite lower_admin_elem. split.
  - intros (r & Hr & Hl). exists r. split; [done|].
    rewrite (Hlaw _ (Hascii r Hr)) in Hl. by apply ascii_lower_caseless.
  - intros (r & Hr & Hc). exists r. split; [done|].
    rewrite (Hlaw _ (Hascii r Hr)). by apply ascii_lower_caseless in Hc.
Qed.

(** C7: [is_superuser] holds exactly when the lowered name of some role
    is ["admin"] — for role names in ASCII: when some role is named
    admin in whatever mix of upper and lower case; a user without roles
    is not a superuser. *)
Theorem is_superuser_iff_admin_role (lib : PyLib) (u : User) :
  (is_superuser lib u = true <->
   exists r, r ∈ roles u /\ str_lower lib (role_name r) = "admin") /\
  (lower_on_ascii lib ->
   (forall r, r ∈ roles u -> is_ascii_text (role_name r) = true) ->
   (is_superuser lib u = true <->
    exists r, r ∈ roles u /\ caseless_eq (role_name r) "admin")) /\
  (roles u = [] -> is_superuser lib u = false).
Proof.
  assert (is_superuser lib u = true <->
          exists r, r ∈ roles u /\ str_lower lib (role_name r) = "admin") as Hiff.
  { unfold is_superuser, py_in. rewrite bool_decide_eq_true.
    apply lower_admin_elem. }
  split; [done|]. split.
  - intros Hlaw Hascii. unfold is_superuser, py_in. rewrite bool_decide_eq_true.
    by apply lower_admin_caseless.
  - intros Hnil. unfold is_superuser. by rewrite Hnil.
Qed.

Lemma is_superuser_caseless_example :
  is_superuser plain_lib
    (user_with_roles [{| role_id := "r1"; role_name := "Member" |};
                      {| role_id := "r2"; role_name := "AdMiN" |}]) = true /\
  is_superuser plain_lib (user_with_roles []) = false.
Proof.
  split.
  - apply (is_superuser_iff_admin_role plain_lib).
    + intros s _. reflexivity.
    + intros r Hr. apply elem_of_cons in Hr as [->|Hr]; [reflexivity|].
      apply list_elem_of_singleton in Hr as ->. reflexivity.
    + exists {| role_id := "r2"; role_name := "AdMiN" |}. split.
      * right. left.
      * simpl. repeat split; try (by left).
        -- right. exists 65%nat. split; [lia|]. by left.
        -- right. exists 77%nat. split; [lia|]. by left.
        -- right. exists 78%nat. split; [lia|]. by left.
  - apply (is_superuser_iff_admin_role plain_lib). reflexivity.
Defined.

Lemma is_superuser_examples :
  is_superuser plain_lib
    (user_with_roles [{| role_id := "r1"; role_name := "Member" |};
                      {| role_id := "r2"; role_name := "Admin" |}]) = true /\
  is_superuser plain_lib
    (user_with_roles [{| role_id := "r1"; role_name := "Member" |};
                      {| role_id := "r3"; role_name := "administrator" |}])
    = false.
Proof.
  vm_compute. done.
Qed.

(** ** Token validity *)

Lemma timedelta_ok (m : Z) :
  -999999999 <= m / 86400 <= 999999999 -> timedelta m = Ok (m * 1000000).
Proof.
  intros [Hlo Hhi]. unfold timedelta.
  destruct (Z.ltb_spec (m / 86400) (-999999999)); [lia|].
  destruct (Z.ltb_spec 999999999 (m / 86400)); [lia|]. done.
Qed.

Lemma datetime_sub_ok (d : datetime) (delta : Z) :
  0 <= wall d - delta < MAXWALL ->
  datetime_sub d delta = Ok {| wall := wall d - delta; utcoffset := utcoffset d |}.
Proof.
  intros [Hlo Hhi]. unfold datetime_sub.
  destruct (Z.ltb_spec (wall d - delta) 0); [lia|].
  destruct (Z.leb_spec MAXWALL (wall d - delta)); [lia|]. done.
Qed.

Lemma is_token_valid_value (settings : Settings) (clock : Clock) (token : Token)
    (margin : option Z) (expiration : datetime) :
  token_expires token = Some expiration ->
  margin_representable expiration (effective_margin settings margin) ->
  comparable_with_now settings expiration ->
  is_token_valid settings clock token margin =
  Ok (instant (timezone_now settings clock)
        <? instant expiration - effective_margin settings margin * 1000000).
Proof.
  intros Hexp [Hm Hw] Hcmp. unfold is_token_valid. rewrite Hexp.
  fold (effective_margin settings margin).
  rewrite (timedelta_ok _ Hm). simpl.
  rewrite (datetime_sub_ok _ _ Hw). simpl.
  unfold timezone_now, instant, datetime_gt, is_naive, make_aware_utc.
  destruct (USE_TZ settings) eqn:Htz, (utcoffset expiration) as [o|] eqn:Ho;
    simpl; rewrite ?Ho; simpl.
  - f_equal. f_equal; lia.
  - f_equal. f_equal; lia.
  - destruct Hcmp; congruence.
  - f_equal. f_equal; lia.
Qed.

(** C2, as the code has it: without an expiry the answer is [False];
    with one — as long as the margin and the shifted expiry are
    representable and the expiry can be compared with the current time —
    the answer is whether the expiry less the margin, a naive value being
    read as UTC, lies strictly after the current time.  Hence, for a
    margin of at least zero, an expiry not after now gives [False], and an
    expiry more than the margin after now gives [True]. *)
Theorem is_token_valid_strictly_after_now (settings : Settings) (clock : Clock)
    (token : Token) (margin : option Z) :
  let m := effective_margin settings margin in
  let now := timezone_now settings clock in
  (token_expires token = None ->
   is_token_valid settings clock token margin = Ok false) /\
  (forall expiration,
     token_expires token = Some expiration ->
     margin_representable expiration m ->
     comparable_with_now settings expiration ->
     is_token_valid settings clock token margin =
       Ok (instant now <? instant expiration - m * 1000000) /\
     (0 <= m -> instant expiration <= instant now ->
      is_token_valid settings clock token margin = Ok false) /\
     (instant now + m * 1000000 < instant expiration ->
      is_token_valid settings clock token margin = Ok true)).
Proof.
  intros m now. split.
  - intros Hexp. unfold is_token_valid. by rewrite Hexp.
  - intros expiration Hexp Hrep Hcmp.
    pose proof (is_token_valid_value settings clock token margin expiration
                  Hexp Hrep Hcmp) as Hv.
    fold m now in Hv. rewrite Hv. repeat split.
    + intros Hm Hpast. f_equal. apply Z.ltb_ge. lia.
    + intros Hfuture. f_equal. apply Z.ltb_lt. lia.
Qed.

Lemma is_token_valid_tomorrow_example :
  is_token_valid test_settings sample_clock (token_expiring (Some tomorrow_naive))
    (Some 60) = Ok true.
Proof.
  pose proof (is_token_valid_strictly_after_now test_settings sample_clock
                (token_expiring (Some tomorrow_naive)) (Some 60)) as [_ H].
  specialize (H tomorrow_naive eq_refl).
  destruct H as (_ & _ & H).
  - unfold margin_representable. vm_compute. intuition congruence.
  - left. reflexivity.
  - apply H. vm_compute. reflexivity.
Defined.

(** C2 as stated fails: with [USE_TZ = False] a timezone-aware expiry is
    compared with a naive current time, and the comparison raises. *)
Lemma is_token_valid_raises_on_aware_expiry_without_tz :
  0 <= 0 /\
  is_token_valid naive_settings sample_clock
    (token_expiring (Some tomorrow_aware)) (Some 0) = Raise TypeError.
Proof.
  split; [lia|]. vm_compute. reflexivity.
Qed.

(** ** WebSSO endpoint *)

Lemma append_nil_l (s : string) : "" +:+ s = s.
Proof. reflexivity. Qed.

Lemma append_cons (c : ascii) (a s : string) :
  String c a +:+ s = String c (a +:+ s).
Proof. reflexivity. Qed.

Lemma drop_last_slash (s : string) :
  ends_with_slash s = true -> drop_last s +:+ "/" = s.
Proof.
  induction s as [|c s IH]; [done|].
  destruct s as [|d s].
  - simpl. intros H. apply Ascii.eqb_eq in H. by subst.
  - intros H. change (String c (drop_last (String d s) +:+ "/") = String c (String d s)).
    f_equal. by apply IH.
Qed.

Lemma drop_last_append_slash (s : string) : drop_last (s +:+ "/") = s.
Proof.
  induction s as [|c s IH]; [done|].
  rewrite append_cons. destruct s as [|d s]; [done|].
  change (String c (drop_last (String d s +:+ "/")) = String c (String d s)).
  by f_equal.
Qed.

(** The callback URL: [/auth/websso/] under the web root, a trailing
    slash of the root not being doubled. *)
Lemma build_absolute_uri_under_webroot (settings : Settings) (request : Request)
    (relative : string) :
  exists root,
    ((ends_with_slash (default "" (WEBROOT settings)) = false /\
      default "" (WEBROOT settings) = root) \/
     default "" (WEBROOT settings) = root +:+ "/") /\
    build_absolute_uri settings request ("/" +:+ relative) =
      request_build_absolute_uri request (root +:+ "/" +:+ relative).
Proof.
  unfold build_absolute_uri.
  assert (String.prefix "/" ("/" +:+ relative) = true) as ->.
  { change ("/" +:+ relative) with (String "/" relative). by destruct relative. }
  destruct (ends_with_slash (default "" (WEBROOT settings))) eqn:Hs; simpl.
  - exists (drop_last (default "" (WEBROOT settings))). split; [|done].
    right. by rewrite drop_last_slash.
  - exists (default "" (WEBROOT settings)). by split; [left|].
Qed.

Lemma truthy_Some (s : string) : s <> "" -> truthy (Some s) = true.
Proof.
  intros Hs. simpl. destruct (String.eqb_spec s ""); [done|done].
Qed.

(** X28: the three cases of [get_websso_url]: a mapping entry with a
    non-empty IdP gives the IdP-specific endpoint, an entry with an empty
    IdP gives the global endpoint with the protocol of the entry, an
    identifier without entry is used as the protocol of the global
    endpoint; [origin] is [/auth/websso/] under the web root made
    absolute by the request. *)
Theorem get_websso_url_by_mapping (settings : Settings) (request : Request)
    (auth_url websso_auth : string) :
  let mapping := default ∅ (WEBSSO_IDP_MAPPING settings) in
  exists root origin,
    ((ends_with_slash (default "" (WEBROOT settings)) = false /\
      default "" (WEBROOT settings) = root) \/
     default "" (WEBROOT settings) = root +:+ "/") /\
    origin = request_build_absolute_uri request (root +:+ "/auth/websso/") /\
    (forall idp protocol,
       mapping !! websso_auth = Some (idp, protocol) -> idp <> "" ->
       get_websso_url settings request auth_url websso_auth =
         auth_url +:+ "/auth/OS-FEDERATION/identity_providers/" +:+ idp
           +:+ "/protocols/" +:+ protocol +:+ "/websso?origin=" +:+ origin) /\
    (forall protocol,
       mapping !! websso_auth = Some ("", protocol) ->
       get_websso_url settings request auth_url websso_auth =
         auth_url +:+ "/auth/OS-FEDERATION/websso/" +:+ protocol
           +:+ "?origin=" +:+ origin) /\
    (mapping !! websso_auth = None ->
       get_websso_url settings request auth_url websso_auth =
         auth_url +:+ "/auth/OS-FEDERATION/websso/" +:+ websso_auth
           +:+ "?origin=" +:+ origin).
Proof.
  intros mapping.
  destruct (build_absolute_uri_under_webroot settings request "auth/websso/")
    as (root & Hroot & Horigin).
  exists root, (request_build_absolute_uri request (root +:+ "/auth/websso/")).
  split; [done|]. split; [done|].
  change ("/" +:+ "auth/websso/") with "/auth/websso/" in Horigin.
  unfold get_websso_url. fold mapping. rewrite Horigin. split; [|split].
  - intros idp protocol Hm Hidp. rewrite Hm. by rewrite (truthy_Some idp Hidp).
  - intros protocol Hm. by rewrite Hm.
  - intros Hm. by rewrite Hm.
Qed.

Lemma get_websso_url_acme_example :
  get_websso_url (websso_settings {[ "acme_oidc" := ("acme", "oidc") ]})
    (test_request ∅) "https://idp/v3" "acme_oidc" =
  "https://idp/v3/auth/OS-FEDERATION/identity_providers/acme/protocols/oidc/websso?origin=http://testserver/dashboard/auth/websso/".
Proof.
  destruct (get_websso_url_by_mapping
              (websso_settings {[ "acme_oidc" := ("acme", "oidc") ]})
              (test_request ∅) "https://idp/v3" "acme_oidc")
    as (root & origin & Hroot & Horigin & Hfound & _).
  rewrite (Hfound "acme" "oidc"); [|vm_compute; reflexivity|discriminate].
  subst origin. destruct Hroot as [[Hs _]|Hroot]; [vm_compute in Hs; discriminate|].
  apply (f_equal drop_last) in Hroot. rewrite drop_last_append_slash in Hroot.
  subst root. vm_compute. reflexivity.
Defined.


(** ** Version fix-up of the identity URL *)

Lemma prefix_true (a s : string) :
  String.prefix a s = true <-> exists rest, s = a +:+ rest.
Proof.
  revert s. induction a as [|c a IH]; intros s.
  - split; [|by destruct s]. intros _. by exists s.
  - destruct s as [|d s]; simpl.
    + split; [done|]. intros (rest & Hrest). rewrite append_cons in Hrest. done.
    + destruct (ascii_dec c d) as [->|Hcd].
      * rewrite IH. split; intros (rest & Hrest); exists rest.
        -- rewrite append_cons. by f_equal.
        -- rewrite append_cons in Hrest. by injection Hrest.
      * split; [done|]. intros (rest & Hrest). rewrite append_cons in Hrest.
        injection Hrest as Hd _. by subst.
Qed.

Lemma str_contains_unfold (sub s : string) :
  str_contains sub s =
  if String.prefix sub s then true
  else match s with
       | EmptyString => false
       | String _ s' => str_contains sub s'
       end.
Proof. by destruct s. Qed.

Lemma str_contains_true (sub s : string) :
  str_contains sub s = true <-> exists before after, occurs_at sub s before after.
Proof.
  unfold occurs_at. induction s as [|c s IH]; rewrite str_contains_unfold.
  - destruct (String.prefix sub "") eqn:Hp.
    + split; [|done]. intros _. apply prefix_true in Hp as (rest & Hrest).
      by exists "", rest.
    + split; [done|]. intros (before & after & Hocc).
      destruct before as [|x before]; [|by rewrite append_cons in Hocc].
      rewrite append_nil_l in Hocc.
      assert (String.prefix sub "" = true) by (apply prefix_true; by exists after).
      congruence.
  - destruct (String.prefix sub (String c s)) eqn:Hp.
    + split; [|done]. intros _. apply prefix_true in Hp as (rest & Hrest).
      by exists "", rest.
    + rewrite IH. split.
      * intros (before & after & ->). exists (String c before), after.
        by rewrite append_cons.
      * intros (before & after & Hocc).
        destruct before as [|x before].
        -- rewrite append_nil_l in Hocc.
           assert (String.prefix sub (String c s) = true)
             by (apply prefix_true; by exists after).
           congruence.
        -- rewrite append_cons in Hocc. injection Hocc as _ ->.
           by exists before, after.
Qed.

Lemma str_replace_go_exhausted (old new s : string) :
  str_replace_go old new (Some O) 0 s = s.
Proof.
  induction s as [|c s IH]; [done|]. simpl. by rewrite IH.
Qed.

Lemma str_replace_go_skip (old new : string) (limit : option nat) (x s : string) :
  str_replace_go old new limit (String.length x) (x +:+ s) =
  str_replace_go old new limit 0 s.
Proof.
  induction x as [|c x IH]; [done|]. rewrite append_cons. simpl. apply IH.
Qed.

Lemma first_occurrence_tail (sub : string) (c : ascii) (before s after : string) :
  first_occurrence sub (String c s) (String c before) after ->
  first_occurrence sub s before after.
Proof.
  unfold first_occurrence, occurs_at. intros [Hocc Hmin]. split.
  - rewrite append_cons in Hocc. by injection Hocc.
  - intros before' after' ->.
    specialize (Hmin (String c before') after'). rewrite append_cons in Hmin.
    specialize (Hmin eq_refl). simpl in Hmin. lia.
Qed.

Lemma str_replace_go_unfold (old new : string) (limit : option nat) (c : ascii)
    (s : string) :
  str_replace_go old new limit 0 (String c s) =
  if limit_allows limit && String.prefix old (String c s) then
    match String.length old with
    | O => new +:+ String c (str_replace_go old new (limit_pred limit) 0 s)
    | S k => new +:+ str_replace_go old new (limit_pred limit) k s
    end
  else String c (str_replace_go old new limit 0 s).
Proof. reflexivity. Qed.

(** [str.replace(old, new, 1)] rewrites the leftmost occurrence. *)
Lemma str_replace_first (old new s before after : string) :
  old <> "" ->
  first_occurrence old s before after ->
  str_replace s old new (Some 1) = before +:+ new +:+ after.
Proof.
  intros Hold. unfold str_replace.
  change (replace_limit (Some 1)) with (Some 1%nat).
  revert before. induction s as [|c s IH]; intros before Hfirst.
  - destruct Hfirst as [Hocc _]. unfold occurs_at in Hocc.
    destruct before; [|by rewrite append_cons in Hocc].
    destruct old; [done|]. by rewrite append_nil_l, append_cons in Hocc.
  - rewrite str_replace_go_unfold.
    destruct (String.prefix old (String c s)) eqn:Hp.
    + apply prefix_true in Hp as (rest & Hrest).
      destruct Hfirst as [Hocc Hmin].
      specialize (Hmin "" rest Hrest). destruct before; [|simpl in Hmin; lia].
      unfold occurs_at in Hocc. rewrite append_nil_l in Hocc |- *.
      destruct old as [|d old]; [done|].
      rewrite append_cons in Hocc. injection Hocc as _ ->.
      change (new +:+ str_replace_go (String d old) new (Some O)
                        (String.length old) (old +:+ after) = new +:+ after).
      by rewrite str_replace_go_skip, str_replace_go_exhausted.
    + destruct before as [|x before].
      * destruct Hfirst as [Hocc _]. unfold occurs_at in Hocc.
        rewrite append_nil_l in Hocc.
        assert (String.prefix old (String c s) = true)
          by (apply prefix_true; by exists after).
        congruence.
      * assert (x = c) as ->.
        { destruct Hfirst as [Hocc _]. unfold occurs_at in Hocc.
          rewrite append_cons in Hocc. by injection Hocc. }
        rewrite append_cons. simpl. f_equal. apply IH.
        by apply (first_occurrence_tail old c).
Qed.

(** C6, as the code has it: below version 3 every URL comes back as
    given; from version 3 on, for a URL that [urlsplit] accepts, a path
    without [/v2.0] leaves the URL as given, and otherwise the leftmost
    [/v2.0] of the path becomes [/v3] and the URL is put together again
    from its parts. *)
Theorem fix_auth_url_version_rewrites_first_v2 (settings : Settings)
    (lib : PyLib) (auth_url : string) :
  ((get_keystone_version settings < 3 # 1)%Q ->
   fix_auth_url_version settings lib auth_url = Ok auth_url) /\
  (forall parts, urlsplit lib auth_url = Ok parts ->
     ((forall before after, ~ occurs_at "/v2.0" (path parts) before after) ->
      fix_auth_url_version settings lib auth_url = Ok auth_url) /\
     (forall before after,
        (3 # 1 <= get_keystone_version settings)%Q ->
        first_occurrence "/v2.0" (path parts) before after ->
        fix_auth_url_version settings lib auth_url =
          Ok (urlunsplit lib
                {| scheme := scheme parts;
                   netloc := netloc parts;
                   path := before +:+ "/v3" +:+ after;
                   query := query parts;
                   fragment := fragment parts |}))).
Proof.
  unfold fix_auth_url_version, keystone_v3_plus. split.
  - intros Hlt.
    destruct (Qle_bool (3 # 1) (get_keystone_version settings)) eqn:Hle; [|done].
    apply Qle_bool_iff in Hle. by apply Qle_not_lt in Hle.
  - intros parts Hsplit. split.
    + intros Hnone.
      destruct (Qle_bool (3 # 1) (get_keystone_version settings)); [|done].
      unfold has_in_url_path. rewrite Hsplit. simpl.
      destruct (str_contains "/v2.0" (path parts)) eqn:Hc; [|done].
      apply str_contains_true in Hc as (before & after & Hocc).
      by destruct (Hnone before after).
    + intros before after Hge Hfirst.
      apply Qle_bool_iff in Hge. rewrite Hge.
      unfold has_in_url_path. rewrite Hsplit. simpl.
      assert (str_contains "/v2.0" (path parts) = true) as ->.
      { apply str_contains_true. exists before, after. apply Hfirst. }
      unfold url_path_replace. rewrite Hsplit. simpl.
      by rewrite (str_replace_first "/v2.0" "/v3" (path parts) before after).
Qed.

Lemma fix_auth_url_version_v2_example :
  fix_auth_url_version test_settings plain_lib "http://x/v2.0" = Ok "http://x/v3".
Proof.
  destruct (fix_auth_url_version_rewrites_first_v2 test_settings plain_lib
              "http://x/v2.0") as (_ & H).
  destruct (H {| scheme := "http"; netloc := "x"; path := "/v2.0";
                 query := ""; fragment := "" |}) as (_ & Hfix);
    [vm_compute; reflexivity|].
  rewrite (Hfix "" "").
  - vm_compute. reflexivity.
  - vm_compute. discriminate.
  - split; [vm_compute; reflexivity|]. intros. simpl. lia.
Defined.

(** C6 as stated fails: with version 3 configured, a URL whose host has
    an unclosed bracket — it holds no [/v2.0] at all — is not returned
    unchanged: splitting it raises. *)
Lemma fix_auth_url_version_raises_on_malformed_url :
  str_contains "/v2.0" "http://[::1/v3" = false /\
  fix_auth_url_version test_settings plain_lib "http://[::1/v3" = Raise ValueError /\
  fix_auth_url_version test_settings plain_lib "http://[::1/v3"
    <> Ok "http://[::1/v3".
Proof.
  vm_compute. repeat split. discriminate.
Qed.

Lemma fix_auth_url_version_unchanged_examples :
  fix_auth_url_version test_settings plain_lib "http://x/v3" = Ok "http://x/v3" /\
  fix_auth_url_version test_settings plain_lib "http://localhost:5000/v2.0/tokens?a=/v2.0"
    = Ok "http://localhost:5000/v3/tokens?a=/v2.0" /\
  fix_auth_url_version
    {| USE_TZ := true; DEBUG := false; TOKEN_TIMEOUT_MARGIN := None;
       OPENSTACK_API_VERSIONS := None; OPENSTACK_SSL_NO_VERIFY := None;
       OPENSTACK_SSL_CACERT := None; WEBSSO_ENABLED := None;
       WEBSSO_IDP_MAPPING := None; WEBROOT := None |}
    plain_lib "http://[::1/v2.0" = Ok "http://[::1/v2.0".
Proof.
  vm_compute. done.
Qed.

(** ** Services regions *)

Lemma flat_map_singleton {A B : Type} (f : A -> B) (l : list A) :
  flat_map (fun a => [f a]) l = map f l.
Proof. induction l as [|a l IH]; [done|]. simpl. by rewrite IH. Qed.

Lemma flat_map_empty {A B : Type} (l : list A) :
  flat_map (fun _ : A => @nil B) l = [].
Proof. induction l as [|a l IH]; [done|]. done. Qed.

Lemma non_identity_regions_filter (catalog : list Service) :
  non_identity_regions catalog =
  all_regions (List.filter typed_non_identity catalog).
Proof.
  unfold non_identity_regions, all_regions.
  induction catalog as [|s catalog IH]; [done|].
  cbn [flat_map List.filter]. rewrite IH.
  destruct (typed_non_identity s).
  - cbn [flat_map]. by rewrite flat_map_singleton.
  - by rewrite flat_map_empty.
Qed.

Lemma default_services_region_unfold (s : Service) (catalog : list Service)
    (request : option Request) :
  default_services_region (Some (s :: catalog)) request =
  match available_regions (s :: catalog) with
  | [] => None
  | first :: _ =>
      let selected_region :=
        match request with
        | Some r => default first (Some <$> COOKIES r !! "services_region")
        | None => None
        end in
      if negb (py_in selected_region (available_regions (s :: catalog)))
      then first else selected_region
  end.
Proof.
  unfold default_services_region, available_regions.
  rewrite non_identity_regions_filter.
  by destruct (all_regions (List.filter typed_non_identity (s :: catalog))).
Qed.

Lemma User_default_services_region_loop_skips (pre : list Service)
    (rest : list Service) :
  (forall s', s' ∈ pre ->
     svc_type s' = Val "identity" \/
     (svc_type s' <> Missing /\ svc_endpoints s' = Some [])) ->
  User_default_services_region_loop (pre ++ rest) =
  User_default_services_region_loop rest.
Proof.
  induction pre as [|s pre IH]; intros Hpre; [done|]. simpl.
  assert (User_default_services_region_loop (pre ++ rest)
          = User_default_services_region_loop rest) as Hrest.
  { apply IH. intros s' Hs'. apply Hpre. by right. }
  destruct (Hpre s ltac:(left)) as [Hid|[Hty Hends]].
  - rewrite Hid. simpl. exact Hrest.
  - rewrite Hends. destruct (svc_type s) as [| |t]; [done|..]; simpl.
    + exact Hrest.
    + by case_bool_decide.
Qed.

(** C8, as the code has it.  An absent or empty catalog gives [None].
    Otherwise the regions to choose from are the endpoint regions, in
    catalog order, of the services whose type is present and is not
    identity, or of all services when those have no endpoint; without any
    endpoint the result is [None]; a cookie naming one of these regions
    wins; in the other cases the first of them is returned.  The method
    of the user object returns the region of the first endpoint of the
    first service that has endpoints and is not the identity service. *)
Theorem default_services_region_selection (catalog : list Service)
    (request : option Request) :
  let cookie := request ≫= (fun r => COOKIES r !! "services_region") in
  (default_services_region None request = None /\
   default_services_region (Some []) request = None /\
   User_default_services_region None = Ok None /\
   User_default_services_region (Some []) = Ok None) /\
  (available_regions catalog = [] ->
   default_services_region (Some catalog) request = None) /\
  (forall c, cookie = Some c -> Some c ∈ available_regions catalog ->
   default_services_region (Some catalog) request = Some c) /\
  (forall first rest,
     available_regions catalog = first :: rest ->
     (request = None -> None ∉ available_regions catalog) ->
     (forall c, cookie = Some c -> Some c ∉ available_regions catalog) ->
     default_services_region (Some catalog) request = first) /\
  (forall pre s e es post,
     catalog = pre ++ s :: post ->
     (forall s', s' ∈ pre ->
        svc_type s' = Val "identity" \/
        (svc_type s' <> Missing /\ svc_endpoints s' = Some [])) ->
     svc_type s <> Missing -> svc_type s <> Val "identity" ->
     svc_endpoints s = Some (e :: es) ->
     User_default_services_region (Some catalog) =
       dict_getitem "region" (ep_region e)).
Proof.
  intros cookie. subst cookie. split; [done|]. split; [|split; [|split]].
  - destruct catalog as [|s catalog]; [done|]. intros Hav.
    by rewrite default_services_region_unfold, Hav.
  - intros c Hc Hin. destruct catalog as [|s catalog].
    { by apply elem_of_nil in Hin. }
    rewrite default_services_region_unfold.
    destruct (available_regions (s :: catalog)) as [|first rest] eqn:Hav.
    { by apply elem_of_nil in Hin. }
    destruct request as [r|]; [|done]. simpl in Hc. rewrite Hc. simpl.
    unfold py_in. by rewrite bool_decide_eq_true_2.
  - intros first rest Hav Hnone Hcookie. destruct catalog as [|s catalog]; [done|].
    rewrite default_services_region_unfold, Hav. rewrite Hav in Hnone, Hcookie.
    unfold py_in. destruct request as [r|]; simpl.
    + simpl in Hcookie. destruct (COOKIES r !! "services_region") as [c|]; simpl.
      * by rewrite bool_decide_eq_false_2; [|apply Hcookie].
      * rewrite bool_decide_eq_true_2; [done|left].
    + by rewrite bool_decide_eq_false_2; [|apply Hnone].
  - intros pre s e es post -> Hpre Hty Hnot Hends.
    assert (User_default_services_region (Some (pre ++ s :: post))
            = User_default_services_region_loop (pre ++ s :: post)) as ->.
    { by destruct pre. }
    rewrite User_default_services_region_loop_skips by done.
    simpl. rewrite Hends. destruct (svc_type s) as [| |t]; [done|..]; simpl.
    + done.
    + case_bool_decide; [|done]. congruence.
Qed.

Lemma default_services_region_cookie_example :
  default_services_region (Some [keystone_service; nova_service])
    (Some (test_request {[ "services_region" := "RegionTwo" ]})) = Some "RegionTwo"
  /\
  default_services_region (Some [keystone_service; nova_service])
    (Some (test_request {[ "services_region" := "Elsewhere" ]})) = Some "RegionOne"
  /\
  User_default_services_region (Some [keystone_service; nova_service])
    = Ok (Some "RegionOne").
Proof.
  destruct (default_services_region_selection [keystone_service; nova_service]
              (Some (test_request {[ "services_region" := "RegionTwo" ]})))
    as (_ & _ & Hcookie & _ & Huser).
  destruct (default_services_region_selection [keystone_service; nova_service]
              (Some (test_request {[ "services_region" := "Elsewhere" ]})))
    as (_ & _ & _ & Hfirst & _).
  split; [|split].
  - apply Hcookie; [vm_compute; reflexivity|].
    vm_compute. do 3 right. left.
  - apply (Hfirst (Some "RegionOne")
             (tail (available_regions [keystone_service; nova_service]))).
    + vm_compute. reflexivity.
    + discriminate.
    + intros c Hc. vm_compute in Hc. injection Hc as <-.
      vm_compute. intros Hin. by repeat (apply elem_of_cons in Hin as [Hin|Hin]; [done|]);
        apply elem_of_nil in Hin.
  - rewrite (Huser [keystone_service] nova_service
               (endpoint_in "http://nova-admin.localhost:8774/v2.0/p1" "RegionOne")
               (tail (default [] (svc_endpoints nova_service))) []);
      [reflexivity|reflexivity| |discriminate|discriminate|reflexivity].
    intros s' Hs'. apply list_elem_of_singleton in Hs' as ->. by left.
Defined.

(** C8 as stated fails: for the catalog of an unscoped token, which holds
    the identity service alone, the region of the identity service is
    returned although no service other than identity exists. *)
Lemma default_services_region_claim_fails_on_identity_only :
  default_services_region (Some [keystone_service]) None = Some "RegionOne" /\
  claimed_default_services_region (Some [keystone_service]) None = None /\
  default_services_region (Some [keystone_service]) None <>
  claimed_default_services_region (Some [keystone_service]) None.
Proof.
  vm_compute. repeat split. discriminate.
Qed.

(** ** The authorized-projects cache *)

Section ProjectCacheFacts.

Variable keystone : nat -> ClientCall -> result (list Project).
Variable settings : Settings.
Variable lib : PyLib.

(** With a token string, the wrapper looks the token up and runs the
    wrapped function on a miss only. *)
Lemma get_project_list_by_token (kwargs : Kwargs) (t : string) (w : World) :
  kw_token kwargs = Val t -> t <> "" ->
  get_project_list keystone settings lib kwargs w =
  match _PROJECT_CACHE w !! t with
  | Some ref => (Ok ref, w)
  | None =>
      match get_project_list_func keystone settings lib kwargs w with
      | (Ok ref, w') =>
          (Ok ref,
           {| heap := heap w';
              _PROJECT_CACHE := <[t := ref]> (_PROJECT_CACHE w');
              upstream_calls := upstream_calls w' |})
      | (Raise e, w') => (Raise e, w')
      end
  end.
Proof.
  intros Ht Hne. unfold get_project_list, memoize_by_keyword_arg.
  assert (omap (kwarg_str kwargs) ["token"] = [t]) as ->.
  { unfold kwarg_str. simpl. by rewrite Ht. }
  simpl. destruct (String.eqb_spec t ""); [done|].
  unfold mbind, M_bind, cache_lookup. 
  destruct (_PROJECT_CACHE w !! t); [done|].
  by destruct (get_project_list_func keystone settings lib kwargs w) as [[ref|e] w'].
Qed.

(** The wrapped function allocates and calls upstream, but leaves the
    cache alone. *)
Lemma get_project_list_func_cache (kwargs : Kwargs) (w : World) :
  _PROJECT_CACHE (get_project_list_func keystone settings lib kwargs w).2
  = _PROJECT_CACHE w.
Proof.
  unfold get_project_list_func, mbind, M_bind, lift, client_list, new_list.
  repeat case_match; simplify_eq/=; done.
Qed.

(** With an [auth_url] that passes the version fix-up and a token, the
    wrapped function sends exactly one listing call. *)
Lemma get_project_list_func_calls (kwargs : Kwargs) (url url' t : string)
    (w : World) :
  kw_auth_url kwargs = Val url ->
  fix_auth_url_version settings lib url = Ok url' ->
  kw_token kwargs = Val t ->
  upstream_calls (get_project_list_func keystone settings lib kwargs w).2
  = S (upstream_calls w).
Proof.
  intros Hurl Hfix Ht.
  unfold get_project_list_func, mbind, M_bind, lift, client_list, new_list,
    fix_auth_url_version_value.
  rewrite Hurl, Ht. simpl. rewrite Hfix. simpl.
  repeat case_match; simplify_eq/=; done.
Qed.

(** With the empty string as token the wrapper calls straight through. *)
Lemma get_project_list_empty_token (kwargs : Kwargs) (w : World) :
  kw_token kwargs = Val "" ->
  get_project_list keystone settings lib kwargs w =
  get_project_list_func keystone settings lib kwargs w.
Proof.
  intros Ht. unfold get_project_list, memoize_by_keyword_arg.
  assert (omap (kwarg_str kwargs) ["token"] = [""]) as ->.
  { unfold kwarg_str. simpl. by rewrite Ht. }
  done.
Qed.

(** A call that presents the empty token to an identity service that
    refuses it does not return. *)
Lemma get_project_list_func_empty_token_refused (kwargs : Kwargs) (w w1 : World)
    (ref : nat) :
  client_refuses_empty_token keystone ->
  kw_token kwargs = Val "" ->
  get_project_list_func keystone settings lib kwargs w <> (Ok ref, w1).
Proof.
  intros Hrefuse Ht.
  unfold get_project_list_func, mbind, M_bind, lift, client_list.
  rewrite Ht. simpl.
  destruct (dict_getitem "auth_url" (kw_auth_url kwargs)) as [url|e]; [|done].
  destruct (fix_auth_url_version_value settings lib url) as [fixed|e]; [|done].
  match goal with
  | |- context [keystone ?n ?call] =>
      destruct (Hrefuse n call eq_refl) as [e ->]
  end.
  done.
Qed.

(** C3: for every token string — the identity service refusing an empty
    token — a call that returns a list object is followed by calls that
    return this very object and leave the world, hence the count of
    upstream calls, as it is; after [remove_project_cache] the next call
    runs the wrapped function again, which sends one upstream call when
    it is given an [auth_url] that the version fix-up accepts. *)
Theorem project_cache_memoizes_by_token (t : string) (kwargs1 kwargs2 : Kwargs)
    (w : World) :
  client_refuses_empty_token keystone ->
  kw_token kwargs1 = Val t -> kw_token kwargs2 = Val t ->
  (forall ref w1,
     get_project_list keystone settings lib kwargs1 w = (Ok ref, w1) ->
     get_project_list keystone settings lib kwargs2 w1 = (Ok ref, w1)) /\
  (forall w',
     remove_project_cache (Some t) w = (Ok tt, w') ->
     (get_project_list keystone settings lib kwargs2 w').1 =
       (get_project_list_func keystone settings lib kwargs2 w').1 /\
     (forall url url',
        kw_auth_url kwargs2 = Val url ->
        fix_auth_url_version settings lib url = Ok url' ->
        upstream_calls (get_project_list keystone settings lib kwargs2 w').2 =
          S (upstream_calls w))).
Proof.
  intros Hrefuse Ht1 Ht2.
  destruct (String.eqb_spec t "") as [->|Hne].
  { split.
    - intros ref w1 Hcall.
      rewrite (get_project_list_empty_token kwargs1 w Ht1) in Hcall.
      by destruct (get_project_list_func_empty_token_refused kwargs1 w w1 ref
                     Hrefuse Ht1).
    - intros w' Hrm. unfold remove_project_cache in Hrm. simplify_eq.
      rewrite (get_project_list_empty_token kwargs2 _ Ht2).
      split; [done|]. intros url url' Hurl Hfix.
      by rewrite (get_project_list_func_calls kwargs2 url url' "" _ Hurl Hfix Ht2). }
  split.
  - intros ref w1 Hcall.
    rewrite (get_project_list_by_token kwargs1 t w Ht1 Hne) in Hcall.
    rewrite (get_project_list_by_token kwargs2 t w1 Ht2 Hne).
    assert (_PROJECT_CACHE w1 !! t = Some ref) as ->; [|done].
    destruct (_PROJECT_CACHE w !! t) as [cached|] eqn:Hc.
    + by simplify_eq.
    + destruct (get_project_list_func keystone settings lib kwargs1 w)
        as [[ref'|e] w'']; simplify_eq. simpl. apply lookup_insert_eq.
  - intros w' Hrm. unfold remove_project_cache in Hrm. simplify_eq.
    rewrite (get_project_list_by_token kwargs2 t _ Ht2 Hne). simpl.
    rewrite lookup_delete_eq.
    set (w' := {| heap := heap w;
                  _PROJECT_CACHE := delete t (_PROJECT_CACHE w);
                  upstream_calls := upstream_calls w |}).
    pose proof (fun url url' => get_project_list_func_calls kwargs2 url url' t w')
      as Hcalls.
    destruct (get_project_list_func keystone settings lib kwargs2 w')
      as [[ref|e] w''] eqn:Hf; simpl; (split; [done|]);
      intros url url' Hurl Hfix; exact (Hcalls url url' Hurl Hfix Ht2).
Qed.

End ProjectCacheFacts.

Lemma project_cache_second_call_example :
  let first_call :=
    get_project_list keystone_listing test_settings plain_lib
      (kwargs_with_token "0123456789abcdef") empty_world in
  get_project_list keystone_listing test_settings plain_lib
    (kwargs_with_token "0123456789abcdef") first_call.2 = (Ok 0%nat, first_call.2).
Proof.
  intros first_call.
  apply (project_cache_memoizes_by_token keystone_listing test_settings
           plain_lib "0123456789abcdef" (kwargs_with_token "0123456789abcdef")
           (kwargs_with_token "0123456789abcdef") empty_world);
    [|reflexivity|reflexivity|vm_compute; reflexivity].
  intros n call Htoken. unfold keystone_listing. rewrite Htoken. by eexists.
Defined.

(** ** The user object *)

Section UserFacts.

Variable keystone : nat -> ClientCall -> result (list Project).
Variable settings : Settings.
Variable lib : PyLib.
Variable check_token_expiration : Token -> result bool.

(** C4: for an authenticated user whose project list has not been
    fetched yet, a fetch that ends in an authorization failure or a
    client exception does not reach the caller: [authorized_tenants]
    returns a new, empty list, and the user object is as before. *)
Theorem authorized_tenants_swallows_keystone_errors (self : User) (t : Token)
    (w w1 : World) (e : exn) :
  token self = Some t ->
  is_authenticated check_token_expiration self = Ok true ->
  _authorized_tenants self = None ->
  get_project_list keystone settings lib (project_list_kwargs settings self t) w
    = (Raise e, w1) ->
  e = ClientException \/ e = AuthorizationFailure ->
  exists ref w2,
    authorized_tenants keystone settings lib check_token_expiration self w
      = (Ok (ref, self), w2) /\
    heap w2 !! ref = Some [] /\
    _PROJECT_CACHE w2 = _PROJECT_CACHE w1 /\
    upstream_calls w2 = upstream_calls w1.
Proof.
  intros Htok Hauth Hnone Hfetch He.
  exists (List.length (heap w1)),
    {| heap := heap w1 ++ [[]];
       _PROJECT_CACHE := _PROJECT_CACHE w1;
       upstream_calls := upstream_calls w1 |}.
  split; [|split; [|done]].
  - unfold authorized_tenants, mbind at 1, M_bind at 1, lift.
    rewrite Hauth, Htok, Hnone. simpl.
    unfold mbind at 1, M_bind at 1, try_except, mbind at 1, M_bind at 1.
    rewrite Hfetch.
    assert (is_keystone_exception e = true) as -> by (by destruct He as [->| ->]).
    unfold mret, M_ret. rewrite Hnone. done.
  - simpl. by rewrite lookup_app_r, Nat.sub_diag.
Qed.

Lemma authorized_tenants_aliases (self self' : User) (ref : nat) (w w' : World) :
  authorized_tenants keystone settings lib check_token_expiration self w
    = (Ok (ref, self'), w') ->
  project_id self' = project_id self /\ project_name self' = project_name self /\
  tenant_id self' = tenant_id self /\ tenant_name self' = tenant_name self.
Proof.
  unfold authorized_tenants, mbind, M_bind, lift, try_except, mret, M_ret,
    read_list, new_list.
  intros H. repeat case_match; simplify_eq/=; done.
Qed.

Lemma user_after_synchronized {Obj : Type} (has_perm : string -> option Obj -> bool)
    (op : @UserOp Obj) (self : User) (w : World) :
  synchronized self ->
  synchronized
    (user_after keystone settings lib check_token_expiration has_perm op self w).1.
Proof.
  intros Hsync. unfold user_after.
  destruct (run_op keystone settings lib check_token_expiration has_perm op self w)
    as [[[v self']|e] w'] eqn:Hrun; simpl; [|done].
  assert (project_id self' = project_id self /\
          project_name self' = project_name self /\
          tenant_id self' = tenant_id self /\
          tenant_name self' = tenant_name self) as (Hp & Hn & Ht & Htn).
  { destruct op; simpl in Hrun;
      try (unfold mret, M_ret in Hrun; by simplify_eq);
      unfold mbind, M_bind, lift, mret, M_ret in Hrun.
    - destruct (is_token_expired _ _); by simplify_eq.
    - destruct (is_authenticated _ _); by simplify_eq.
    - destruct (is_anonymous _ _); by simplify_eq.
    - destruct (authorized_tenants _ _ _ _ _ _) as [[[ref u]|e] w''] eqn:Hcall;
        simplify_eq. by apply authorized_tenants_aliases in Hcall.
    - destruct (User_default_services_region _); by simplify_eq.
    - destruct (available_services_regions _); by simplify_eq. }
  unfold synchronized in *. by rewrite Ht, Htn, Hp, Hn.
Qed.

Lemma run_ops_synchronized {Obj : Type} (has_perm : string -> option Obj -> bool)
    (ops : list (@UserOp Obj)) (self : User) (w : World) :
  synchronized self ->
  synchronized
    (run_ops keystone settings lib check_token_expiration has_perm ops self w).1.
Proof.
  revert self w. induction ops as [|op ops IH]; intros self w Hsync; [done|].
  simpl.
  pose proof (user_after_synchronized has_perm op self w Hsync) as Hstep.
  destruct (user_after keystone settings lib check_token_expiration has_perm
              op self w) as [self' w']. by apply IH.
Qed.

(** C9: a user built by [__init__] has [tenant_id] equal to [project_id]
    and [tenant_name] equal to [project_name]; the project value is the
    one given, or the tenant value when none is given; and no sequence of
    operations of the user object separates the aliases. *)
Theorem user_init_synchronized {Obj : Type}
    (has_perm : string -> option Obj -> bool) (a : InitArgs) (u : User) :
  User_init a = Ok u ->
  synchronized u /\
  (forall p, arg_project_id a = Some p -> p <> "" -> project_id u = Some p) /\
  (arg_project_id a = None -> project_id u = arg_tenant_id a) /\
  (forall n, arg_project_name a = Some n -> n <> "" -> project_name u = Some n) /\
  (arg_project_name a = None -> project_name u = arg_tenant_name a) /\
  (forall (ops : list (@UserOp Obj)) w,
     synchronized
       (run_ops keystone settings lib check_token_expiration has_perm ops u w).1).
Proof.
  intros Hinit.
  assert (synchronized u /\
          project_id u = py_or (arg_project_id a) (arg_tenant_id a) /\
          project_name u = py_or (arg_project_name a) (arg_tenant_name a))
    as (Hsync & Hid & Hname).
  { unfold User_init in Hinit.
    destruct (if truthy (arg_services_region a) then _ else _) as [region|e];
      simpl in Hinit; [|done].
    injection Hinit as <-. by repeat split. }
  split; [done|]. split; [|split; [|split; [|split]]].
  - intros p Hp Hne. by rewrite Hid, Hp; unfold py_or; rewrite truthy_Some.
  - intros Hp. by rewrite Hid, Hp.
  - intros n Hn Hne. by rewrite Hname, Hn; unfold py_or; rewrite truthy_Some.
  - intros Hn. by rewrite Hname, Hn.
  - intros ops w. by apply run_ops_synchronized.
Qed.

End UserFacts.

Lemma authorized_tenants_rejected_example :
  exists ref w2,
    authorized_tenants keystone_rejecting test_settings plain_lib always_valid
      test_user empty_world = (Ok (ref, test_user), w2) /\
    heap w2 !! ref = Some [].
Proof.
  destruct (authorized_tenants_swallows_keystone_errors keystone_rejecting
              test_settings plain_lib always_valid test_user
              (token_expiring (Some tomorrow_aware)) empty_world
              {| heap := []; _PROJECT_CACHE := ∅; upstream_calls := 1 |}
              AuthorizationFailure)
    as (ref & w2 & Hcall & Hempty & _);
    [reflexivity|reflexivity|reflexivity|vm_compute; reflexivity|by right|].
  by exists ref, w2.
Defined.

Lemma user_init_example :
  User_init test_init_args = Ok test_user /\ synchronized test_user.
Proof.
  assert (User_init test_init_args = Ok test_user) as Hinit
    by (vm_compute; reflexivity).
  split; [done|].
  apply (user_init_synchronized keystone_listing test_settings plain_lib
           always_valid (has_perm_of ["openstack.roles.member"])
           test_init_args test_user Hinit).
Defined.

(** * Further properties of the code *)

(** ** The order of the project list *)

Section ProjectOrder.

Variable lib : PyLib.

Lemma insert_by_name_perm (p : Project) (l : list Project) :
  insert_by_name lib p l ≡ₚ p :: l.
Proof.
  induction l as [|q l IH]; [done|]. simpl.
  destruct (String.leb (name_key lib p) (name_key lib q)); [done|].
  rewrite IH. apply Permutation_swap.
Qed.

Lemma insert_by_name_hd (p q : Project) (l : list Project) :
  String.leb (name_key lib q) (name_key lib p) = true ->
  HdRel (name_le lib) q l -> HdRel (name_le lib) q (insert_by_name lib p l).
Proof.
  intros Hqp Hhd. destruct l as [|r l]; simpl.
  - by constructor.
  - destruct (String.leb (name_key lib p) (name_key lib r)); constructor; [done|].
    by inversion Hhd.
Qed.

Lemma insert_by_name_sorted (p : Project) (l : list Project) :
  Sorted (name_le lib) l -> Sorted (name_le lib) (insert_by_name lib p l).
Proof.
  induction l as [|q l IH]; intros Hs; simpl.
  - by repeat constructor.
  - destruct (String.leb (name_key lib p) (name_key lib q)) eqn:Hpq.
    + constructor; [done|]. by constructor.
    + inversion Hs as [|? ? Hs' Hhd]; subst. constructor; [by apply IH|].
      apply insert_by_name_hd; [|done].
      destruct (String.leb_total (name_key lib p) (name_key lib q)); [congruence|done].
Qed.

(** X1: the sorted project list holds the projects the identity service
    returned, each as often as it came, and neighbours are in the order
    of their lowered names. *)
Theorem sort_by_name_sorted_permutation (l : list Project) :
  sort_by_name lib l ≡ₚ l /\ Sorted (name_le lib) (sort_by_name lib l).
Proof.
  unfold sort_by_name. induction l as [|p l [IHp IHs]]; simpl.
  - split; [done|constructor].
  - split.
    + by rewrite insert_by_name_perm, IHp.
    + by apply insert_by_name_sorted.
Qed.

Lemma insert_by_name_filter_other (k : string) (p : Project) (l : list Project) :
  name_key lib p <> k ->
  List.filter (fun q => String.eqb (name_key lib q) k) (insert_by_name lib p l) =
  List.filter (fun q => String.eqb (name_key lib q) k) l.
Proof.
  intros Hne. induction l as [|q l IH]; simpl.
  - by destruct (String.eqb_spec (name_key lib p) k).
  - destruct (String.leb (name_key lib p) (name_key lib q)); simpl.
    + by destruct (String.eqb_spec (name_key lib p) k).
    + by rewrite IH.
Qed.

Lemma leb_refl (a : string) : String.leb a a = true.
Proof. by destruct (String.leb_total a a). Qed.

Lemma insert_by_name_filter_same (p : Project) (l : list Project) :
  List.filter (fun q => String.eqb (name_key lib q) (name_key lib p)) (insert_by_name lib p l) =
  p :: List.filter (fun q => String.eqb (name_key lib q) (name_key lib p)) l.
Proof.
  induction l as [|q l IH]; simpl.
  - by rewrite String.eqb_refl.
  - destruct (String.leb (name_key lib p) (name_key lib q)) eqn:Hpq; simpl.
    + by rewrite String.eqb_refl.
    + destruct (String.eqb_spec (name_key lib q) (name_key lib p)) as [Heq|Hne].
      * rewrite Heq, leb_refl in Hpq. done.
      * done.
Qed.

(** X2: the sort is stable: projects whose lowered names are equal keep
    the order in which the identity service returned them. *)
Theorem sort_by_name_stable (k : string) (l : list Project) :
  List.filter (fun q => String.eqb (name_key lib q) k) (sort_by_name lib l) =
  List.filter (fun q => String.eqb (name_key lib q) k) l.
Proof.
  unfold sort_by_name. induction l as [|p l IH]; [done|]. simpl.
  destruct (String.eqb_spec (name_key lib p) k) as [<-|Hne].
  - by rewrite insert_by_name_filter_same, IH.
  - by rewrite insert_by_name_filter_other, IH.
Qed.

End ProjectOrder.

(** ** Fetching, caching and evicting project lists *)

Section ProjectCacheMore.

Variable keystone : nat -> ClientCall -> result (list Project).
Variable settings : Settings.
Variable lib : PyLib.

Lemma get_project_list_func_answer (kwargs : Kwargs) (url url' t : string)
    (ps : list Project) (w : World) :
  kw_auth_url kwargs = Val url ->
  fix_auth_url_version settings lib url = Ok url' ->
  kw_token kwargs = Val t ->
  (forall call, call_token call = Some t ->
     keystone (upstream_calls w) call = Ok ps) ->
  get_project_list_func keystone settings lib kwargs w =
  (Ok (List.length (heap w)),
   {| heap := heap w ++ [sort_by_name lib ps];
      _PROJECT_CACHE := _PROJECT_CACHE w;
      upstream_calls := S (upstream_calls w) |}).
Proof.
  intros Hurl Hfix Ht Hks.
  unfold get_project_list_func, mbind, M_bind, lift, client_list, new_list,
    fix_auth_url_version_value.
  rewrite Hurl, Ht. simpl. rewrite Hfix. simpl. by rewrite Hks.
Qed.

(** X3: a call whose token is not cached and whose [auth_url] passes the
    version fix-up sends one listing call, and when the identity service
    answers, the call returns a new list object that holds the answer
    sorted by lowered name and is cached under the token; the list
    objects that existed before are not touched. *)
Theorem get_project_list_fetch_stores_sorted (kwargs : Kwargs)
    (url url' t : string) (ps : list Project) (w : World) :
  kw_auth_url kwargs = Val url ->
  fix_auth_url_version settings lib url = Ok url' ->
  kw_token kwargs = Val t -> t <> "" ->
  _PROJECT_CACHE w !! t = None ->
  (forall call, call_token call = Some t ->
     keystone (upstream_calls w) call = Ok ps) ->
  exists w',
    get_project_list keystone settings lib kwargs w = (Ok (List.length (heap w)), w') /\
    heap w' = heap w ++ [sort_by_name lib ps] /\
    heap w' !! List.length (heap w) = Some (sort_by_name lib ps) /\
    _PROJECT_CACHE w' = <[t := List.length (heap w)]> (_PROJECT_CACHE w) /\
    upstream_calls w' = S (upstream_calls w).
Proof.
  intros Hurl Hfix Ht Hne Hmiss Hks.
  rewrite (get_project_list_by_token keystone settings lib kwargs t w Ht Hne), Hmiss.
  rewrite (get_project_list_func_answer kwargs url url' t ps w Hurl Hfix Ht Hks).
  eexists. split; [done|]. simpl. repeat split.
  by rewrite lookup_app_r, Nat.sub_diag.
Qed.

(** X4: a call that raises stores nothing: the cache and the list objects
    are as before the call, so the next call with the same token asks the
    identity service again. *)
Theorem get_project_list_failure_not_cached (kwargs : Kwargs) (w w' : World)
    (e : exn) :
  get_project_list keystone settings lib kwargs w = (Raise e, w') ->
  _PROJECT_CACHE w' = _PROJECT_CACHE w /\ heap w' = heap w.
Proof.
  unfold get_project_list, memoize_by_keyword_arg.
  assert (forall w0 w1 e0,
            get_project_list_func keystone settings lib kwargs w0 = (Raise e0, w1) ->
            _PROJECT_CACHE w1 = _PROJECT_CACHE w0 /\ heap w1 = heap w0) as Hfunc.
  { intros w0 w1 e0.
    unfold get_project_list_func, mbind, M_bind, lift, client_list, new_list.
    intros H. repeat case_match; simplify_eq/=; done. }
  destruct (String.eqb _ ""); [apply Hfunc|].
  unfold mbind, M_bind, cache_lookup, cache_store, mret, M_ret.
  destruct (_PROJECT_CACHE w !! _); [done|].
  destruct (get_project_list_func keystone settings lib kwargs w)
    as [[ref|e0] w0] eqn:Hf; [done|].
  intros H. simplify_eq. by apply Hfunc in Hf.
Qed.

(** X5: evicting a token removes its entry and nothing else: list
    objects, the call count and the entries of other tokens stay, so a
    cached call for another token still returns its cached object;
    evicting again changes nothing. *)
Theorem remove_project_cache_only_that_token (t : string) (w : World) :
  let w' := (remove_project_cache (Some t) w).2 in
  _PROJECT_CACHE w' !! t = None /\
  heap w' = heap w /\ upstream_calls w' = upstream_calls w /\
  remove_project_cache (Some t) w' = (Ok tt, w') /\
  (forall kwargs t' ref,
     kw_token kwargs = Val t' -> t' <> "" -> t' <> t ->
     _PROJECT_CACHE w !! t' = Some ref ->
     get_project_list keystone settings lib kwargs w' = (Ok ref, w')).
Proof.
  simpl. split; [apply lookup_delete_eq|]. split; [done|]. split; [done|]. split.
  - unfold remove_project_cache. simpl. by rewrite delete_delete_eq.
  - intros kwargs t' ref Ht' Hne Hneq Hhit.
    rewrite (get_project_list_by_token keystone settings lib kwargs t' _ Ht' Hne).
    simpl. by rewrite lookup_delete_ne, Hhit.
Qed.

(** X6: a call that misses the cache and lacks [auth_url], or that has an
    [auth_url] which passes the version fix-up but no [token], raises
    [KeyError] for that key before anything is sent or stored. *)
Theorem get_project_list_missing_argument (kwargs : Kwargs) (w : World) :
  (forall t, kw_auth_url kwargs = Missing -> kw_token kwargs = Val t ->
     _PROJECT_CACHE w !! t = None ->
     get_project_list keystone settings lib kwargs w
       = (Raise (KeyError "auth_url"), w)) /\
  (forall url url', kw_auth_url kwargs = Val url ->
     fix_auth_url_version settings lib url = Ok url' ->
     kw_token kwargs = Missing ->
     get_project_list keystone settings lib kwargs w
       = (Raise (KeyError "token"), w)).
Proof.
  split.
  - intros t Hurl Ht Hmiss.
    assert (get_project_list_func keystone settings lib kwargs w
            = (Raise (KeyError "auth_url"), w)) as Hf.
    { unfold get_project_list_func, mbind, M_bind, lift. by rewrite Hurl. }
    destruct (String.eqb_spec t "") as [->|Hne].
    + unfold get_project_list, memoize_by_keyword_arg.
      assert (omap (kwarg_str kwargs) ["token"] = [""]) as ->.
      { unfold kwarg_str. simpl. by rewrite Ht. }
      exact Hf.
    + rewrite (get_project_list_by_token keystone settings lib kwargs t w Ht Hne).
      by rewrite Hmiss, Hf.
  - intros url url' Hurl Hfix Ht.
    unfold get_project_list, memoize_by_keyword_arg.
    assert (omap (kwarg_str kwargs) ["token"] = []) as ->.
    { unfold kwarg_str. simpl. by rewrite Ht. }
    simpl.
    unfold get_project_list_func, mbind, M_bind, lift, fix_auth_url_version_value.
    rewrite Hurl, Ht. simpl. rewrite Hfix. done.
Qed.

End ProjectCacheMore.

Lemma get_project_list_fetch_example :
  exists w',
    get_project_list keystone_listing test_settings plain_lib
      (kwargs_with_token "0123456789abcdef") empty_world = (Ok 0%nat, w') /\
    heap w' !! 0%nat = Some (sort_by_name plain_lib two_projects).
Proof.
  destruct (get_project_list_fetch_stores_sorted keystone_listing test_settings
              plain_lib (kwargs_with_token "0123456789abcdef")
              "http://localhost:5000/v3" "http://localhost:5000/v3"
              "0123456789abcdef" two_projects empty_world)
    as (w' & Hcall & _ & Hobj & _);
    [reflexivity|vm_compute; reflexivity|reflexivity|discriminate|reflexivity| |].
  - intros call Htoken. unfold keystone_listing. by rewrite Htoken.
  - by exists w'.
Defined.

Lemma get_project_list_failure_example :
  _PROJECT_CACHE
    (get_project_list keystone_rejecting test_settings plain_lib
       (kwargs_with_token "0123456789abcdef") empty_world).2 = ∅.
Proof.
  apply (get_project_list_failure_not_cached keystone_rejecting test_settings
           plain_lib (kwargs_with_token "0123456789abcdef") empty_world _
           AuthorizationFailure).
  vm_compute. reflexivity.
Defined.

(** ** Authentication state and the project list of a user *)

Section UserMore.

Variable keystone : nat -> ClientCall -> result (list Project).
Variable settings : Settings.
Variable lib : PyLib.
Variable check_token_expiration : Token -> result bool.

(** X7: the three authentication predicates agree: without a token the
    user is anonymous and [is_token_expired] is [None]; with a token,
    [is_anonymous] and [is_token_expired] are both the negation of
    [is_authenticated], and an error of the token check reaches the
    caller of each of them. *)
Theorem authentication_predicates_agree (self : User) :
  (token self = None ->
   is_authenticated check_token_expiration self = Ok false /\
   is_anonymous check_token_expiration self = Ok true /\
   is_token_expired check_token_expiration self = Ok None) /\
  (forall b, is_authenticated check_token_expiration self = Ok b ->
   is_anonymous check_token_expiration self = Ok (negb b)) /\
  (forall t b, token self = Some t ->
   is_authenticated check_token_expiration self = Ok b ->
   is_token_expired check_token_expiration self = Ok (Some (negb b))) /\
  (forall t e, token self = Some t ->
   is_authenticated check_token_expiration self = Raise e ->
   is_anonymous check_token_expiration self = Raise e /\
   is_token_expired check_token_expiration self = Raise e).
Proof.
  unfold is_anonymous, is_token_expired, is_authenticated.
  split; [|split; [|split]].
  - by intros ->.
  - intros b Hb. by rewrite Hb.
  - intros t b -> Hb. by rewrite Hb.
  - intros t e -> He. by rewrite He.
Qed.

(** What [authorized_tenants] returns is the list stored in the user
    afterwards, or a new empty list; the token is not touched. *)
Lemma authorized_tenants_result (self self' : User) (ref : nat) (w w' : World) :
  authorized_tenants keystone settings lib check_token_expiration self w
    = (Ok (ref, self'), w') ->
  token self' = token self /\
  (_authorized_tenants self' = Some ref \/ heap w' !! ref = Some []).
Proof.
  unfold authorized_tenants, mbind, M_bind, lift, mret, M_ret, try_except,
    read_list, new_list.
  intros Hcall.
  repeat case_match; simplify_eq/=; (split; [done|]);
    try (by left); right; by rewrite lookup_app_r, Nat.sub_diag.
Qed.

(** X8: an authenticated user's project list is fetched once: when
    [authorized_tenants] has returned a non-empty list, asking the
    resulting user again returns the same list object and changes
    nothing — no call to [get_project_list], no upstream call. *)
Theorem authorized_tenants_memoized_on_user (self self' : User) (ref : nat)
    (w w' : World) (p : Project) (ps : list Project) :
  authorized_tenants keystone settings lib check_token_expiration self w
    = (Ok (ref, self'), w') ->
  heap w' !! ref = Some (p :: ps) ->
  authorized_tenants keystone settings lib check_token_expiration self' w'
    = (Ok (ref, self'), w').
Proof.
  intros Hcall Hobj.
  destruct (authorized_tenants_result self self' ref w w' Hcall)
    as [Htok [Hset|Hempty]]; [|congruence].
  assert (exists auth, is_authenticated check_token_expiration self' = Ok auth)
    as [auth Hauth].
  { unfold is_authenticated. rewrite Htok.
    revert Hcall. unfold authorized_tenants, mbind at 1, M_bind at 1, lift.
    unfold is_authenticated.
    destruct (token self) as [t|]; [|by eexists].
    destruct (check_token_expiration t) as [auth|e]; [by eexists|done]. }
  unfold authorized_tenants, mbind at 1, M_bind at 1, lift.
  rewrite Hauth.
  assert (bool_decide (_authorized_tenants self' = None) = false) as ->.
  { rewrite Hset. by apply bool_decide_eq_false_2. }
  rewrite andb_false_r.
  assert ((match token self' with
           | Some _ => mret self'
           | None => mret self'
           end : M User) = mret self') as -> by (by destruct (token self')).
  unfold mbind, M_bind, mret, M_ret, read_list. by rewrite Hset, Hobj.
Qed.

(** X9: for a user who is not authenticated nothing is fetched: the
    accessor sends no upstream call and leaves the cache and the user
    alone; it returns the stored list when that is non-empty and a new
    empty list otherwise. *)
Theorem authorized_tenants_unauthenticated (self : User) (w : World) :
  is_authenticated check_token_expiration self = Ok false ->
  exists ref w',
    authorized_tenants keystone settings lib check_token_expiration self w
      = (Ok (ref, self), w') /\
    upstream_calls w' = upstream_calls w /\
    _PROJECT_CACHE w' = _PROJECT_CACHE w /\
    (forall stored p ps,
       _authorized_tenants self = Some stored -> heap w !! stored = Some (p :: ps) ->
       ref = stored /\ w' = w) /\
    (_authorized_tenants self = None -> heap w' !! ref = Some []).
Proof.
  intros Hauth.
  unfold authorized_tenants, mbind at 1, M_bind at 1, lift. rewrite Hauth. simpl.
  assert ((match token self with
           | Some _ => mret self
           | None => mret self
           end : M User) = mret self) as -> by (by destruct (token self)).
  unfold mbind, M_bind, mret, M_ret, read_list, new_list.
  destruct (_authorized_tenants self) as [stored|] eqn:Hs.
  - destruct (default [] (heap w !! stored)) as [|p ps] eqn:Hl.
    + eexists _, _. split; [done|]. simpl.
      split; [done|]. split; [done|]. split; [|done].
      intros ? ? ? [= <-] Hobj. by rewrite Hobj in Hl.
    + eexists _, _. split; [done|].
      split; [done|]. split; [done|]. split; [|done].
      by intros ? ? ? [= <-] _.
  - eexists _, _. split; [done|]. simpl.
    split; [done|]. split; [done|]. split; [done|].
    intros _. by rewrite lookup_app_r, Nat.sub_diag.
Qed.

(** X10: only the two identity-service exception classes are swallowed:
    any other exception of the fetch, such as the [KeyError] of a missing
    key, goes on to the caller of [authorized_tenants]. *)
Theorem authorized_tenants_propagates_other_errors (self : User) (t : Token)
    (w w1 : World) (e : exn) :
  token self = Some t ->
  is_authenticated check_token_expiration self = Ok true ->
  _authorized_tenants self = None ->
  get_project_list keystone settings lib (project_list_kwargs settings self t) w
    = (Raise e, w1) ->
  e <> ClientException -> e <> AuthorizationFailure ->
  authorized_tenants keystone settings lib check_token_expiration self w
    = (Raise e, w1).
Proof.
  intros Htok Hauth Hnone Hfetch Hc Ha.
  unfold authorized_tenants, mbind at 1, M_bind at 1, lift.
  rewrite Hauth, Htok, Hnone. simpl.
  unfold mbind at 1, M_bind at 1, try_except, mbind at 1, M_bind at 1.
  rewrite Hfetch.
  assert (is_keystone_exception e = false) as -> by (by destruct e).
  done.
Qed.

(** X11: a project list assigned through the setter is what the getter
    returns: when the assigned list is non-empty, the getter hands back
    that very object without fetching, whether or not the user is
    authenticated. *)
Theorem authorized_tenants_setter_getter (self : User) (ref : nat) (w : World)
    (b : bool) (p : Project) (ps : list Project) :
  is_authenticated check_token_expiration self = Ok b ->
  heap w !! ref = Some (p :: ps) ->
  authorized_tenants keystone settings lib check_token_expiration
    (set_authorized_tenants self (Some ref)) w
  = (Ok (ref, set_authorized_tenants self (Some ref)), w).
Proof.
  intros Hauth Hobj.
  unfold authorized_tenants, mbind at 1, M_bind at 1, lift.
  assert (is_authenticated check_token_expiration
            (set_authorized_tenants self (Some ref)) = Ok b) as -> by done.
  simpl. rewrite andb_false_r.
  assert ((match token self with
           | Some _ => mret (set_authorized_tenants self (Some ref))
           | None => mret (set_authorized_tenants self (Some ref))
           end : M User) = mret (set_authorized_tenants self (Some ref))) as ->
    by (by destruct (token self)).
  unfold mbind, M_bind, mret, M_ret, read_list. simpl. by rewrite Hobj.
Qed.

End UserMore.

(** ** The regions of a user's catalog *)

Lemma available_regions_of_endpoints_spec (es : list Endpoint)
    (acc rs : list (option string)) :
  available_regions_of_endpoints es acc = Ok rs ->
  NoDup acc ->
  NoDup rs /\
  (exists more, rs = acc ++ more) /\
  (forall r, r ∈ rs <->
     r ∈ acc \/ exists e, e ∈ es /\ dict_getitem "region" (ep_region e) = Ok r).
Proof.
  revert acc. induction es as [|e es IH]; intros acc Hrun Hnd; simpl in Hrun.
  - injection Hrun as <-. split; [done|]. split; [by exists []; rewrite app_nil_r|].
    intros r. split; [by left|]. intros [?|(e & He & _)]; [done|].
    by apply elem_of_nil in He.
  - destruct (dict_getitem "region" (ep_region e)) as [region|err] eqn:Hreg;
      simpl in Hrun; [|done].
    unfold py_in in Hrun.
    destruct (bool_decide (region ∈ acc)) eqn:Hin; simpl in Hrun.
    + apply bool_decide_eq_true in Hin.
      destruct (IH acc Hrun Hnd) as (Hnd' & Hpre & Hmem).
      split; [done|]. split; [done|]. intros r. rewrite Hmem. split.
      * intros [?|(e' & He' & Hr)]; [by left|]. right. exists e'. split; [by right|done].
      * intros [?|(e' & He' & Hr)]; [by left|].
        apply elem_of_cons in He' as [->|He'].
        -- left. congruence.
        -- right. by exists e'.
    + apply bool_decide_eq_false in Hin.
      assert (NoDup (acc ++ [region])) as Hnd2.
      { apply NoDup_app. split; [done|]. split; [|apply NoDup_singleton].
        intros x Hx Hx'. apply list_elem_of_singleton in Hx'. by subst. }
      destruct (IH (acc ++ [region]) Hrun Hnd2) as (Hnd' & (more & Hpre) & Hmem).
      split; [done|]. split.
      { exists (region :: more). by rewrite Hpre, <- app_assoc. }
      intros r. rewrite Hmem, elem_of_app, list_elem_of_singleton. split.
      * intros [[?| ->]|(e' & He' & Hr)].
        -- by left.
        -- right. exists e. split; [left|done].
        -- right. exists e'. split; [by right|done].
      * intros [?|(e' & He' & Hr)]; [by left; left|].
        apply elem_of_cons in He' as [->|He'].
        -- left. right. congruence.
        -- right. by exists e'.
Qed.

Lemma available_regions_of_services_spec (catalog : list Service)
    (acc rs : list (option string)) :
  available_regions_of_services catalog acc = Ok rs ->
  NoDup acc ->
  NoDup rs /\
  (exists more, rs = acc ++ more) /\
  (forall r, r ∈ rs <-> r ∈ acc \/ region_of_non_identity_endpoint catalog r).
Proof.
  unfold region_of_non_identity_endpoint.
  revert acc. induction catalog as [|s catalog IH]; intros acc Hrun Hnd;
    simpl in Hrun.
  - injection Hrun as <-. split; [done|]. split; [by exists []; rewrite app_nil_r|].
    intros r. split; [by left|]. intros [?|(s & es & e & Hs & _)]; [done|].
    by apply elem_of_nil in Hs.
  - destruct (dict_getitem "type" (svc_type s)) as [ty|err] eqn:Hty;
      simpl in Hrun; [|done].
    destruct (bool_decide (ty = Some "identity")) eqn:Hid.
    + apply bool_decide_eq_true in Hid. subst ty.
      assert (svc_type s = Val "identity") as Hs.
      { destruct (svc_type s); simpl in Hty; congruence. }
      destruct (IH acc Hrun Hnd) as (Hnd' & Hpre & Hmem).
      split; [done|]. split; [done|]. intros r. rewrite Hmem. split.
      * intros [?|(s' & es & e & Hs' & Hrest)]; [by left|].
        right. exists s', es, e. split; [by right|done].
      * intros [?|(s' & es & e & Hs' & Hnid & Hrest)]; [by left|].
        apply elem_of_cons in Hs' as [->|Hs']; [done|].
        right. by exists s', es, e.
    + apply bool_decide_eq_false in Hid.
      assert (svc_type s <> Val "identity") as Hs.
      { intros Heq. rewrite Heq in Hty. simpl in Hty. congruence. }
      destruct (svc_endpoints s) as [es|] eqn:Hes; [|done].
      destruct (available_regions_of_endpoints es acc) as [mid|err] eqn:Hmid;
        simpl in Hrun; [|done].
      destruct (available_regions_of_endpoints_spec es acc mid Hmid Hnd)
        as (Hnd1 & (more1 & Hpre1) & Hmem1).
      destruct (IH mid Hrun Hnd1) as (Hnd' & (more2 & Hpre2) & Hmem).
      split; [done|]. split.
      { exists (more1 ++ more2). by rewrite Hpre2, Hpre1, <- app_assoc. }
      intros r. rewrite Hmem, Hmem1. split.
      * intros [[?|(e & He & Hr)]|(s' & es' & e & Hs' & Hrest)].
        -- by left.
        -- right. exists s, es, e. split; [left|done].
        -- right. exists s', es', e. split; [by right|done].
      * intros [?|(s' & es' & e & Hs' & Hnid & Hes' & He & Hr)]; [by left; left|].
        apply elem_of_cons in Hs' as [->|Hs'].
        -- left. right. exists e. split; [congruence|done].
        -- right. by exists s', es', e.
Qed.

(** X12: when [available_services_regions] returns, its list has no
    duplicates and holds exactly the regions of the endpoints of the
    services other than identity; without a catalog it is empty. *)
Theorem available_services_regions_unique (self : User)
    (rs : list (option string)) :
  available_services_regions self = Ok rs ->
  NoDup rs /\
  (forall r, r ∈ rs <->
     region_of_non_identity_endpoint (default [] (service_catalog self)) r).
Proof.
  unfold available_services_regions.
  destruct (service_catalog self) as [[|s catalog]|] eqn:Hcat; simpl.
  - intros [= <-]. split; [constructor|]. intros r. split.
    + intros Hr. by apply elem_of_nil in Hr.
    + intros (s & es & e & Hs & _). by apply elem_of_nil in Hs.
  - intros Hrun.
    destruct (available_regions_of_services_spec (s :: catalog) [] rs Hrun)
      as (Hnd & _ & Hmem); [constructor|].
    split; [done|]. intros r. rewrite Hmem. split; [|by right].
    intros [Hr|?]; [|done]. by apply elem_of_nil in Hr.
  - intros [= <-]. split; [constructor|]. intros r. split.
    + intros Hr. by apply elem_of_nil in Hr.
    + intros (s & es & e & Hs & _). by apply elem_of_nil in Hs.
Qed.

Lemma available_regions_head (catalog : list Service) (rs : list (option string))
    (r : option string) :
  available_regions_of_services catalog [] = Ok rs ->
  User_default_services_region_loop catalog = Ok r ->
  (rs = [] /\ r = None) \/ head rs = Some r.
Proof.
  induction catalog as [|s catalog IH]; simpl; intros Hav Hdef.
  - left. by simplify_eq.
  - destruct (dict_getitem "type" (svc_type s)) as [ty|err]; simpl in *; [|done].
    destruct (bool_decide (ty = Some "identity")); [by apply IH|].
    destruct (svc_endpoints s) as [[|e es]|]; [by apply IH| |done].
    simpl in Hav. rewrite Hdef in Hav. simpl in Hav.
    destruct (available_regions_of_endpoints es [r]) as [mid|err] eqn:Hmid;
      simpl in Hav; [|done].
    destruct (available_regions_of_endpoints_spec es [r] mid Hmid)
      as (Hnd1 & (more1 & ->) & _); [apply NoDup_singleton|].
    destruct (available_regions_of_services_spec catalog _ rs Hav Hnd1)
      as (_ & (more2 & ->) & _).
    by right.
Qed.

(** X13: the default region of the user object is the first of its
    available regions: when both scans of the catalog return, either no
    region is available and the default is [None], or the default is the
    first entry of the list (a [None] entry when the first endpoint has
    a null region). *)
Theorem default_region_heads_available_regions (self : User)
    (rs : list (option string)) (r : option string) :
  available_services_regions self = Ok rs ->
  User_default_services_region (service_catalog self) = Ok r ->
  (rs = [] /\ r = None) \/ head rs = Some r.
Proof.
  unfold available_services_regions, User_default_services_region.
  destruct (service_catalog self) as [[|s catalog]|].
  - intros [= <-] [= <-]. by left.
  - apply available_regions_head.
  - intros [= <-] [= <-]. by left.
Qed.

Lemma plain_catalog_tail (s : Service) (catalog : list Service) :
  plain_catalog (s :: catalog) -> plain_catalog catalog.
Proof. intros H s' Hs'. apply H. by right. Qed.

Lemma non_identity_regions_cons (s : Service) (catalog : list Service) :
  non_identity_regions (s :: catalog) =
  (if typed_non_identity s
   then map get_endpoint_region (endpoints_or_empty s) else [])
  ++ non_identity_regions catalog.
Proof.
  unfold non_identity_regions. cbn [flat_map]. f_equal.
  destruct (typed_non_identity s).
  - apply flat_map_singleton.
  - apply flat_map_empty.
Qed.

Lemma plain_catalog_regions (catalog : list Service) :
  plain_catalog catalog ->
  User_default_services_region_loop catalog =
    Ok (default None (head (non_identity_regions catalog))) /\
  None ∉ non_identity_regions catalog.
Proof.
  induction catalog as [|s catalog IH]; intros Hplain.
  - split; [done|]. intros H. by apply elem_of_nil in H.
  - destruct (IH (plain_catalog_tail _ _ Hplain)) as [IHloop IHnone].
    destruct (Hplain s ltac:(left)) as ((ty & Hty) & es & Hes & Hends).
    rewrite non_identity_regions_cons.
    unfold typed_non_identity, endpoints_or_empty. simpl.
    rewrite Hty, Hes. simpl.
    destruct (String.eqb_spec ty "identity") as [->|Hne]; simpl.
    + done.
    + rewrite bool_decide_eq_false_2 by congruence. split.
      * destruct es as [|e es']; [done|]. simpl.
        destruct (Hends e ltac:(left)) as (Hid & r & Hr).
        unfold get_endpoint_region. by rewrite Hid, Hr.
      * rewrite elem_of_app. intros [Hin|Hin]; [|done].
        apply list_elem_of_fmap in Hin as (e & Heq & He).
        destruct (Hends e He) as (Hid & r & Hr).
        unfold get_endpoint_region in Heq. by rewrite Hid, Hr in Heq.
Qed.

(** X14: the two default-region functions agree on the catalogs the
    identity service sends: when some service other than identity has an
    endpoint, the method of the user object and the function of [utils]
    (called without request) return the same region; when none has, the
    method returns [None]. *)
Theorem default_region_method_agrees_with_function (catalog : list Service) :
  plain_catalog catalog ->
  (non_identity_regions catalog <> [] ->
   User_default_services_region (Some catalog) =
     Ok (default_services_region (Some catalog) None)) /\
  (non_identity_regions catalog = [] ->
   User_default_services_region (Some catalog) = Ok None).
Proof.
  intros Hplain.
  destruct (plain_catalog_regions catalog Hplain) as [Hloop Hnone].
  assert (User_default_services_region (Some catalog)
          = User_default_services_region_loop catalog) as ->
    by (by destruct catalog).
  rewrite Hloop. split.
  - intros Hne. f_equal. unfold default_services_region.
    destruct catalog as [|s catalog]; [done|].
    destruct (non_identity_regions (s :: catalog)) as [|first rest] eqn:Hav; [done|].
    simpl. unfold py_in. by rewrite bool_decide_eq_false_2.
  - by intros ->.
Qed.

Lemma default_region_agreement_example :
  User_default_services_region (Some [keystone_service; nova_service]) =
  Ok (default_services_region (Some [keystone_service; nova_service]) None).
Proof.
  apply default_region_method_agrees_with_function; [|vm_compute; discriminate].
  intros s Hs.
  assert (s = keystone_service \/ s = nova_service) as [-> | ->].
  { apply elem_of_cons in Hs as [->|Hs]; [by left|].
    apply list_elem_of_singleton in Hs. by right. }
  - split; [by eexists|]. eexists. split; [reflexivity|].
    intros e He. repeat (apply elem_of_cons in He as [->|He]; [by split; [|eexists]|]).
    by apply elem_of_nil in He.
  - split; [by eexists|]. eexists. split; [reflexivity|].
    intros e He. repeat (apply elem_of_cons in He as [->|He]; [by split; [|eexists]|]).
    by apply elem_of_nil in He.
Defined.

(** ** Building users *)

Lemma User_default_services_region_raises_KeyError (catalog : option (list Service))
    (e : exn) :
  User_default_services_region catalog = Raise e -> exists key, e = KeyError key.
Proof.
  assert (forall l, User_default_services_region_loop l = Raise e ->
                    exists key, e = KeyError key) as Hloop.
  { induction l as [|s l IH]; simpl; [done|].
    destruct (svc_type s); simpl.
    - intros [= <-]. by eexists.
    - destruct (svc_endpoints s) as [[|ep ?]|]; [done| |intros [= <-]; by eexists].
      destruct (ep_region ep); simpl; [intros [= <-]; by eexists|done|done].
    - case_bool_decide; [done|].
      destruct (svc_endpoints s) as [[|ep ?]|]; [done| |intros [= <-]; by eexists].
      destruct (ep_region ep); simpl; [intros [= <-]; by eexists|done|done]. }
  destruct catalog as [[|s l]|]; [done|apply (Hloop (s :: l))|done].
Qed.

(** X15: building a user fails in one way only: when no services region
    is passed and the scan of the catalog for a default hits a missing
    key, and then with that [KeyError].  With a non-empty services region
    the constructor always returns and keeps that region; absent roles
    become the empty list. *)
Theorem User_init_fails_only_on_catalog (a : InitArgs) :
  (truthy (arg_services_region a) = true ->
   exists u, User_init a = Ok u /\ _services_region u = arg_services_region a) /\
  (forall e, User_init a = Raise e <->
     truthy (arg_services_region a) = false /\
     User_default_services_region (arg_service_catalog a) = Raise e) /\
  (forall e, User_init a = Raise e -> exists key, e = KeyError key) /\
  (forall u, User_init a = Ok u -> arg_roles a = None -> roles u = []).
Proof.
  unfold User_init. split; [|split; [|split]].
  - intros ->. by eexists.
  - intros e. destruct (truthy (arg_services_region a)); simpl.
    + split; [done|]. by intros [? _].
    + destruct (User_default_services_region (arg_service_catalog a)); simpl.
      * split; [done|]. by intros [_ ?].
      * split; [by intros [= ->]|]. by intros [_ [= ->]].
  - intros e. destruct (truthy (arg_services_region a)); simpl; [done|].
    destruct (User_default_services_region (arg_service_catalog a)) eqn:Hd;
      simpl; [done|].
    intros [= <-]. by apply (User_default_services_region_raises_KeyError _ _ Hd).
  - intros u Hu Hroles.
    destruct (if truthy (arg_services_region a) then _ else _); simpl in Hu; [|done].
    injection Hu as <-. simpl. by rewrite Hroles.
Qed.

(** X16: a user created from a token is active, carries the token and
    its roles, has no project list yet, has its tenant aliases in step
    with the token's project (none for an unscoped token), and — the
    role names being ASCII — is a superuser exactly when one of the
    token's roles is named admin in some mix of upper and lower case. *)
Theorem create_user_from_token_reflects_token (lib : PyLib) (t : Token)
    (endpoint_url services_region : option string) (u : User) :
  create_user_from_token t endpoint_url services_region = Ok u ->
  is_active u = true /\ token u = Some t /\ endpoint u = endpoint_url /\
  _authorized_tenants u = None /\ synchronized u /\
  roles u = token_roles t /\
  (forall p, token_project_id t = Some p -> p <> "" ->
     project_id u = Some p /\ tenant_id u = Some p) /\
  (truthy (token_project_id t) = false ->
     project_id u = None /\ tenant_id u = None) /\
  (lower_on_ascii lib ->
   (forall r, r ∈ token_roles t -> is_ascii_text (role_name r) = true) ->
   (is_superuser lib u = true <->
    exists r, r ∈ token_roles t /\ caseless_eq (role_name r) "admin")).
Proof.
  unfold create_user_from_token, User_init. intros Hu.
  destruct (if truthy _ then _ else _) as [region|e]; simpl in Hu; [|done].
  injection Hu as <-. simpl.
  split; [done|]. split; [done|]. split; [done|]. split; [done|].
  split; [done|]. split; [done|]. split; [|split].
  - intros p -> Hp. unfold py_or. by rewrite truthy_Some.
  - intros Hf. unfold py_or. by rewrite Hf.
  - intros Hlaw Hascii. unfold is_superuser, py_in. simpl.
    rewrite bool_decide_eq_true. by apply lower_admin_caseless.
Qed.

Lemma create_user_from_token_example :
  exists u,
    create_user_from_token (token_with_roles [{| role_id := "r9"; role_name := "ADMIN" |}])
      (Some "http://localhost:5000/v3") (Some "RegionOne") = Ok u /\
    tenant_id u = Some "p1" /\ is_superuser plain_lib u = true.
Proof.
  destruct (create_user_from_token
              (token_with_roles [{| role_id := "r9"; role_name := "ADMIN" |}])
              (Some "http://localhost:5000/v3") (Some "RegionOne"))
    as [u|e] eqn:Hu; [|vm_compute in Hu; discriminate].
  exists u. split; [done|].
  destruct (create_user_from_token_reflects_token plain_lib _ _ _ u Hu)
    as (_ & _ & _ & _ & _ & _ & Hp & _ & Hsuper).
  split; [by apply (Hp "p1")|].
  apply Hsuper.
  - intros s _. reflexivity.
  - intros r Hr. apply list_elem_of_singleton in Hr as ->. reflexivity.
  - exists {| role_id := "r9"; role_name := "ADMIN" |}. split; [left|].
    simpl. repeat split.
    + right. exists 65%nat. split; [lia|]. by left.
    + right. exists 68%nat. split; [lia|]. by left.
    + right. exists 77%nat. split; [lia|]. by left.
    + right. exists 73%nat. split; [lia|]. by left.
    + right. exists 78%nat. split; [lia|]. by left.
Defined.

Lemma User_init_with_region_example :
  exists u, User_init test_init_args = Ok u.
Proof.
  destruct (User_init_fails_only_on_catalog test_init_args)
    as (_ & Hraise & _).
  destruct (User_init test_init_args) as [u|e] eqn:Hu; [by exists u|].
  destruct (proj1 (Hraise e) eq_refl) as [_ Hscan].
  vm_compute in Hscan. discriminate.
Defined.

(** ** More on token validity *)

(** X17: a larger margin never turns an invalid token into a valid one:
    when a token is valid with margin [m], it is valid with every smaller
    margin (both margins being representable). *)
Theorem is_token_valid_margin_monotone (settings : Settings) (clock : Clock)
    (token : Token) (expiration : datetime) (m m' : Z) :
  token_expires token = Some expiration ->
  margin_representable expiration m ->
  margin_representable expiration m' ->
  comparable_with_now settings expiration ->
  m' <= m ->
  is_token_valid settings clock token (Some m) = Ok true ->
  is_token_valid settings clock token (Some m') = Ok true.
Proof.
  intros Hexp Hm Hm' Hcmp Hle.
  rewrite (is_token_valid_value settings clock token (Some m) expiration Hexp Hm Hcmp).
  rewrite (is_token_valid_value settings clock token (Some m') expiration Hexp Hm' Hcmp).
  simpl. intros [= Hv]. f_equal. apply Z.ltb_lt in Hv. apply Z.ltb_lt. lia.
Qed.

Lemma is_token_valid_margin_example :
  is_token_valid test_settings sample_clock (token_expiring (Some tomorrow_naive))
    (Some 0) = Ok true.
Proof.
  apply (is_token_valid_margin_monotone test_settings sample_clock
           (token_expiring (Some tomorrow_naive)) tomorrow_naive 3600 0);
    [reflexivity| | |by left|lia|vm_compute; reflexivity];
    unfold margin_representable; vm_compute; intuition congruence.
Defined.

(** X18: [is_token_valid] raises in two situations only: an
    [OverflowError] when the margin or the shifted expiry is not
    representable, and a [TypeError] when [USE_TZ] is off and the expiry
    is timezone-aware.  With [USE_TZ] on and representable values it
    always answers. *)
Theorem is_token_valid_errors (settings : Settings) (clock : Clock)
    (token : Token) (margin : option Z) (e : exn) :
  is_token_valid settings clock token margin = Raise e ->
  exists expiration,
    token_expires token = Some expiration /\
    ((e = OverflowError /\
      ~ margin_representable expiration (effective_margin settings margin)) \/
     (e = TypeError /\ USE_TZ settings = false /\
      exists offset, utcoffset expiration = Some offset)).
Proof.
  unfold is_token_valid. destruct (token_expires token) as [expiration|]; [|done].
  fold (effective_margin settings margin).
  set (m := effective_margin settings margin).
  intros Hraise. exists expiration. split; [done|].
  unfold timedelta in Hraise.
  destruct ((m / 86400 <? -999999999) || (999999999 <? m / 86400)) eqn:Hdays.
  { simpl in Hraise. injection Hraise as <-. left. split; [done|].
    intros [[Hlo Hhi] _].
    apply orb_true_iff in Hdays as [H|H]; apply Z.ltb_lt in H; lia. }
  simpl in Hraise. unfold datetime_sub in Hraise.
  destruct ((wall expiration - m * 1000000 <? 0)
            || (MAXWALL <=? wall expiration - m * 1000000)) eqn:Hwall.
  { simpl in Hraise. injection Hraise as <-. left. split; [done|].
    intros [_ [Hlo Hhi]].
    apply orb_true_iff in Hwall as [H|H];
      [apply Z.ltb_lt in H|apply Z.leb_le in H]; lia. }
  simpl in Hraise. right.
  unfold datetime_gt, timezone_now, is_naive, make_aware_utc in Hraise.
  destruct (USE_TZ settings), (utcoffset expiration) as [o|] eqn:Ho;
    simpl in Hraise; rewrite ?Ho in Hraise; simpl in Hraise; try done.
  injection Hraise as <-. split; [done|]. split; [done|]. by exists o.
Qed.

Lemma is_token_valid_errors_example :
  exists offset, utcoffset tomorrow_aware = Some offset.
Proof.
  destruct (is_token_valid_errors naive_settings sample_clock
              (token_expiring (Some tomorrow_aware)) (Some 0) TypeError)
    as (expiration & Hexp & [[He _]|(_ & _ & Hoff)]);
    [vm_compute; reflexivity|discriminate|].
  injection Hexp as <-. exact Hoff.
Defined.

(** ** Replacing in a URL path *)

Lemma str_replace_go_without_occurrence (old new : string) (limit : option nat)
    (s : string) :
  (forall before after, ~ occurs_at old s before after) ->
  str_replace_go old new limit 0 s = s.
Proof.
  induction s as [|c s IH]; intros Hnone.
  - destruct old as [|d old]; [by destruct (Hnone "" "")|].
    simpl. by rewrite andb_false_r.
  - rewrite str_replace_go_unfold.
    destruct (String.prefix old (String c s)) eqn:Hp.
    + apply prefix_true in Hp as (rest & Hrest). by destruct (Hnone "" rest).
    + rewrite andb_false_r. f_equal. apply IH.
      intros before after Hocc. apply (Hnone (String c before) after).
      unfold occurs_at in *. by rewrite append_cons, Hocc.
Qed.

(** X19: for a URL that [urlsplit] accepts, when [old] does not occur in
    the path, [url_path_replace] changes nothing in it, whatever [count]
    is: the result is the URL put together again from its own parts. *)
Theorem url_path_replace_without_occurrence (lib : PyLib) (url old new : string)
    (count : option Z) (parts : SplitResult) :
  urlsplit lib url = Ok parts ->
  (forall before after, ~ occurs_at old (path parts) before after) ->
  url_path_replace lib url old new count = Ok (urlunsplit lib parts).
Proof.
  intros Hsplit Hnone. unfold url_path_replace, str_replace.
  rewrite Hsplit. simpl.
  rewrite str_replace_go_without_occurrence by done.
  by destruct parts.
Qed.

Lemma url_path_replace_example :
  url_path_replace plain_lib "http://x/v3/tokens?next=/v2.0" "/v2.0" "/v3" None
  = Ok "http://x/v3/tokens?next=/v2.0".
Proof.
  rewrite (url_path_replace_without_occurrence plain_lib _ _ _ _
             {| scheme := "http"; netloc := "x"; path := "/v3/tokens";
                query := "next=/v2.0"; fragment := "" |});
    [vm_compute; reflexivity|vm_compute; reflexivity|].
  intros before after Hocc.
  assert (str_contains "/v2.0" "/v3/tokens" = true)
    as Hc by (apply str_contains_true; by exists before, after).
  vm_compute in Hc. discriminate.
Defined.

(** ** Resolving the user of a request *)

(** X20: [get_user] never lets a [KeyError] through: a session without
    the user id or without the back-end path gives the anonymous user
    (no back end is loaded), as does a [KeyError] raised by the back end;
    a back end that finds no user gives the anonymous user too. *)
Theorem get_user_anonymous_fallback (load_backend : SessionValue -> result Backend)
    (request : HttpRequest) :
  (session request !! SESSION_KEY = None \/
   session request !! BACKEND_SESSION_KEY = None ->
   get_user load_backend request = Ok AnonymousUser) /\
  (forall e, get_user load_backend request = Raise e ->
     forall key, e <> KeyError key) /\
  (forall user_id backend_path backend,
     session request !! SESSION_KEY = Some user_id ->
     session request !! BACKEND_SESSION_KEY = Some backend_path ->
     load_backend backend_path = Ok backend ->
     backend request user_id = Ok None ->
     get_user load_backend request = Ok AnonymousUser).
Proof.
  unfold get_user, session_getitem. split; [|split].
  - intros [Hk|Hk].
    + by rewrite Hk.
    + rewrite Hk. by destruct (session request !! SESSION_KEY).
  - intros e Hraise key ->. revert Hraise. unfold anonymous_on_KeyError.
    by repeat case_match.
  - intros user_id backend_path backend Hu Hb Hl Hnone.
    rewrite Hu, Hb. simpl. rewrite Hl. simpl. by rewrite Hnone.
Qed.

Lemma get_user_fresh_request_example :
  get_user load_broken_backend fresh_request = Ok AnonymousUser.
Proof.
  apply (get_user_anonymous_fallback load_broken_backend fresh_request).
  left. reflexivity.
Defined.

(** X21: the user of a request is resolved once: after
    [middleware_get_user] has returned, calling it again on the resulting
    request returns the same user and the same request, whatever the
    back ends would answer now. *)
Theorem middleware_get_user_resolves_once
    (load_backend load_backend' : SessionValue -> result Backend)
    (request request' : HttpRequest) (u : AnyUser) :
  middleware_get_user load_backend request = Ok (u, request') ->
  middleware_get_user load_backend' request' = Ok (u, request') /\
  session request' = session request.
Proof.
  unfold middleware_get_user.
  destruct (_cached_user request) as [cached|] eqn:Hc.
  - intros [= <- <-]. by rewrite Hc.
  - destruct (get_user load_backend request) as [user|e]; simpl; [|done].
    by intros [= <- <-].
Qed.

Lemma middleware_get_user_example :
  middleware_get_user load_broken_backend
    {| session := session logged_in_request;
       _cached_user := Some (KeystoneUser test_user);
       request_user := None |}
  = Ok (KeystoneUser test_user,
        {| session := session logged_in_request;
           _cached_user := Some (KeystoneUser test_user);
           request_user := None |}).
Proof.
  apply (middleware_get_user_resolves_once load_test_backend load_broken_backend
           logged_in_request).
  vm_compute. reflexivity.
Defined.

(** X22: what [set_session_from_user] stores can be read back: the four
    session keys hold the user's token, id, endpoint and services region,
    every other session key is as before, and the request resolves to
    this user from now on without asking a back end. *)
Theorem set_session_from_user_round_trip
    (load_backend : SessionValue -> result Backend)
    (request : HttpRequest) (user : User) :
  let request' := set_session_from_user request user in
  session request' !! "token" = Some (SessionToken (token user)) /\
  session request' !! "user_id" = Some (SessionStr (id_ user)) /\
  session request' !! "region_endpoint" = Some (SessionStr (endpoint user)) /\
  session request' !! "services_region" =
    Some (SessionStr (_services_region user)) /\
  (forall key,
     key <> "token" -> key <> "user_id" -> key <> "region_endpoint" ->
     key <> "services_region" ->
     session request' !! key = session request !! key) /\
  request_user request' = Some (KeystoneUser user) /\
  middleware_get_user load_backend request' = Ok (KeystoneUser user, request').
Proof.
  simpl. unfold set_session_from_user. simpl.
  split; [by simplify_map_eq|]. split; [by simplify_map_eq|].
  split; [by simplify_map_eq|]. split; [by simplify_map_eq|].
  split; [|done].
  intros key H1 H2 H3 H4. by simplify_map_eq.
Qed.

Lemma set_session_from_user_example :
  session (set_session_from_user logged_in_request test_user) !! SESSION_KEY
  = Some (SessionStr (Some "u1")).
Proof.
  destruct (set_session_from_user_round_trip load_broken_backend
              logged_in_request test_user) as (_ & _ & _ & _ & Hother & _).
  rewrite Hother; [vm_compute; reflexivity|discriminate..].
Defined.

(** ** Routes *)

(** X23: the [websso] route exists exactly when WebSSO is switched on and
    the identity API version is at least 3 — so never under the default
    version — while the four other routes always exist; no route name
    occurs twice. *)
Theorem websso_route_iff_enabled (settings : Settings) :
  let names := map pattern_name (urlpatterns settings) in
  ("websso" ∈ names <->
   WEBSSO_ENABLED settings = Some true /\
   (3 # 1 <= get_keystone_version settings)%Q) /\
  (OPENSTACK_API_VERSIONS settings = None -> "websso" ∉ names) /\
  (forall name,
     name ∈ ["login"; "logout"; "switch_tenants"; "switch_services_region"] ->
     name ∈ names) /\
  NoDup names.
Proof.
  assert (is_websso_enabled settings = true <->
          WEBSSO_ENABLED settings = Some true /\
          (3 # 1 <= get_keystone_version settings)%Q) as Hen.
  { unfold is_websso_enabled, keystone_v3_plus.
    rewrite andb_true_iff, Qle_bool_iff.
    destruct (WEBSSO_ENABLED settings) as [[|]|]; simpl; intuition congruence. }
  simpl. unfold urlpatterns.
  destruct (is_websso_enabled settings) eqn:Hw; simpl.
  - split; [|split; [|split]].
    + split; [intros _; by apply Hen|]. intros _.
      rewrite !elem_of_cons. tauto.
    + intros Hnone. destruct (proj1 Hen eq_refl) as [_ Hv].
      unfold get_keystone_version in Hv. rewrite Hnone in Hv. simpl in Hv.
      rewrite lookup_empty in Hv. simpl in Hv. by vm_compute in Hv.
    + intros name Hn. rewrite !elem_of_cons in Hn. rewrite !elem_of_cons. tauto.
    + apply (bool_decide_unpack _). by vm_compute.
  - split; [|split; [|split]].
    + split.
      * intros Hin. repeat (apply elem_of_cons in Hin as [Hin|Hin]; [done|]).
        by apply elem_of_nil in Hin.
      * intros H. apply Hen in H. congruence.
    + intros _ Hin. repeat (apply elem_of_cons in Hin as [Hin|Hin]; [done|]).
      by apply elem_of_nil in Hin.
    + intros name Hn. done.
    + apply (bool_decide_unpack _). by vm_compute.
Qed.

Lemma websso_route_example :
  "websso" ∈ map pattern_name
    (urlpatterns (websso_settings {[ "acme_oidc" := ("acme", "oidc") ]})).
Proof.
  destruct (websso_route_iff_enabled
              (websso_settings {[ "acme_oidc" := ("acme", "oidc") ]}))
    as [Hiff _].
  apply Hiff. split; [reflexivity|]. vm_compute. discriminate.
Defined.

(** ** The further properties on the sample data *)

Lemma remove_project_cache_other_token_example :
  let w := (get_project_list keystone_listing test_settings plain_lib
              (kwargs_with_token "token-a") empty_world).2 in
  let w' := (remove_project_cache (Some "token-b") w).2 in
  get_project_list keystone_faulty test_settings plain_lib
    (kwargs_with_token "token-a") w' = (Ok 0%nat, w').
Proof.
  intros w w'.
  destruct (remove_project_cache_only_that_token keystone_faulty test_settings
              plain_lib "token-b" w) as (_ & _ & _ & _ & Hother).
  apply (Hother (kwargs_with_token "token-a") "token-a");
    [reflexivity|discriminate|discriminate|vm_compute; reflexivity].
Defined.

Lemma get_project_list_missing_auth_url_example :
  get_project_list keystone_listing test_settings plain_lib
    (kwargs_without_auth_url "token-a") empty_world
  = (Raise (KeyError "auth_url"), empty_world).
Proof.
  destruct (get_project_list_missing_argument keystone_listing test_settings
              plain_lib (kwargs_without_auth_url "token-a") empty_world)
    as [Hurl _].
  by apply (Hurl "token-a").
Defined.

Lemma anonymous_without_token_example :
  is_anonymous always_valid (user_with_roles []) = Ok true.
Proof.
  destruct (authentication_predicates_agree always_valid (user_with_roles []))
    as [Hnone _].
  by apply Hnone.
Defined.

Lemma authorized_tenants_memoized_example :
  exists ref self' w',
    authorized_tenants keystone_listing test_settings plain_lib always_valid
      test_user empty_world = (Ok (ref, self'), w') /\
    authorized_tenants keystone_faulty test_settings plain_lib always_valid
      self' w' = (Ok (ref, self'), w').
Proof.
  destruct (authorized_tenants keystone_listing test_settings plain_lib
              always_valid test_user empty_world)
    as [[[ref self']|e] w'] eqn:Hcall; [|vm_compute in Hcall; discriminate].
  exists ref, self', w'. split; [done|].
  assert (authorized_tenants keystone_faulty test_settings plain_lib
            always_valid (set_authorized_tenants test_user (Some 0%nat))
            {| heap := [sort_by_name plain_lib two_projects];
               _PROJECT_CACHE := {[ "0123456789abcdef" := 0%nat ]};
               upstream_calls := 1 |}
          = (Ok (0%nat, set_authorized_tenants test_user (Some 0%nat)),
             {| heap := [sort_by_name plain_lib two_projects];
                _PROJECT_CACHE := {[ "0123456789abcdef" := 0%nat ]};
                upstream_calls := 1 |})) as Hagain.
  { apply (authorized_tenants_memoized_on_user keystone_faulty test_settings
             plain_lib always_valid
             (set_authorized_tenants test_user (Some 0%nat)) _ _
             {| heap := [sort_by_name plain_lib two_projects];
                _PROJECT_CACHE := {[ "0123456789abcdef" := 0%nat ]};
                upstream_calls := 1 |} _
             {| proj_id := "p1"; proj_name := "Tenant_one" |}
             [{| proj_id := "p2"; proj_name := "tenant_two" |}]);
      vm_compute; reflexivity. }
  vm_compute in Hcall. injection Hcall as <- <- <-. exact Hagain.
Defined.

Lemma authorized_tenants_unauthenticated_example :
  exists ref w',
    authorized_tenants keystone_listing test_settings plain_lib always_valid
      (user_with_roles []) empty_world = (Ok (ref, user_with_roles []), w') /\
    upstream_calls w' = 0%nat.
Proof.
  destruct (authorized_tenants_unauthenticated keystone_listing test_settings
              plain_lib always_valid (user_with_roles []) empty_world)
    as (ref & w' & Hcall & Hcalls & _); [reflexivity|].
  by exists ref, w'.
Defined.

Lemma authorized_tenants_propagates_example :
  authorized_tenants keystone_faulty test_settings plain_lib always_valid
    test_user empty_world
  = (Raise ValueError,
     {| heap := []; _PROJECT_CACHE := ∅; upstream_calls := 1 |}).
Proof.
  apply (authorized_tenants_propagates_other_errors keystone_faulty
           test_settings plain_lib always_valid test_user
           (token_expiring (Some tomorrow_aware)));
    [reflexivity|reflexivity|reflexivity|vm_compute; reflexivity
    |discriminate|discriminate].
Defined.

Lemma authorized_tenants_setter_getter_example :
  authorized_tenants keystone_faulty test_settings plain_lib always_valid
    (set_authorized_tenants test_user (Some 0%nat)) world_with_projects
  = (Ok (0%nat, set_authorized_tenants test_user (Some 0%nat)), world_with_projects).
Proof.
  apply (authorized_tenants_setter_getter keystone_faulty test_settings
           plain_lib always_valid test_user 0%nat world_with_projects true
           {| proj_id := "p2"; proj_name := "tenant_two" |}
           [{| proj_id := "p1"; proj_name := "Tenant_one" |}]);
    reflexivity.
Defined.

Lemma available_services_regions_example :
  exists rs, available_services_regions test_user = Ok rs /\ NoDup rs.
Proof.
  destruct (available_services_regions test_user) as [rs|e] eqn:Hrs;
    [|vm_compute in Hrs; discriminate].
  exists rs. split; [done|].
  by apply (available_services_regions_unique test_user rs Hrs).
Defined.

Lemma default_region_heads_example :
  exists rs, available_services_regions test_user = Ok rs /\
             head rs = Some (Some "RegionOne").
Proof.
  destruct (available_services_regions test_user) as [rs|e] eqn:Hrs;
    [|vm_compute in Hrs; discriminate].
  exists rs. split; [done|].
  destruct (default_region_heads_available_regions test_user rs (Some "RegionOne") Hrs)
    as [[_ Hnone]|Hhead]; [vm_compute; reflexivity|discriminate|done].
Defined.

(** ** Combining permission requirements *)

Section PermissionsMore.

Context {Obj : Type}.

Lemma has_perms_as_loop (has_perm : string -> option Obj -> bool)
    (l : list perm) (obj : option Obj) :
  has_perms has_perm l obj = has_perms_loop has_perm l obj.
Proof. by destruct l. Qed.

(** X24: requiring two lists together is requiring each of them:
    [has_perms] of a concatenation is the conjunction of [has_perms] of
    the parts. *)
Theorem has_perms_app (has_perm : string -> option Obj -> bool)
    (l1 l2 : list perm) (obj : option Obj) :
  has_perms has_perm (l1 ++ l2) obj =
  has_perms has_perm l1 obj && has_perms has_perm l2 obj.
Proof.
  rewrite !has_perms_as_loop.
  induction l1 as [|e l1 IH]; [done|]. simpl.
  destruct e as [p|alts].
  - destruct (has_perm p obj); simpl; [apply IH|done].
  - destruct (has_a_matching_perm has_perm alts obj); simpl; [apply IH|done].
Qed.

(** X25: permissions only ever help: a user who holds at least the
    permissions of another passes every [has_perms] check the other
    passes. *)
Theorem has_perms_monotone (has_perm has_perm' : string -> option Obj -> bool)
    (l : list perm) (obj : option Obj) :
  (forall p, has_perm p obj = true -> has_perm' p obj = true) ->
  has_perms has_perm l obj = true -> has_perms has_perm' l obj = true.
Proof.
  intros Hsub. rewrite !has_perms_as_loop.
  assert (forall alts, has_a_matching_perm has_perm alts obj = true ->
                       has_a_matching_perm has_perm' alts obj = true) as Hany.
  { intros alts. rewrite !has_a_matching_perm_true.
    intros [->|(p & Hp & Hh)]; [by left|]. right. exists p. split; [done|].
    by apply Hsub. }
  induction l as [|e l IH]; [done|]. simpl. destruct e as [p|alts].
  - destruct (has_perm p obj) eqn:Hp; simpl; [|done].
    rewrite (Hsub p Hp). simpl. apply IH.
  - destruct (has_a_matching_perm has_perm alts obj) eqn:Ha; simpl; [|done].
    rewrite (Hany alts Ha). simpl. apply IH.
Qed.

End PermissionsMore.

Lemma has_perms_monotone_example :
  has_perms (has_perm_of ["a"; "b"; "c"]) [PermStr "a"; PermTuple ["b"; "x"]] None
  = true.
Proof.
  apply (has_perms_monotone (has_perm_of ["a"; "b"]) (has_perm_of ["a"; "b"; "c"])).
  - intros p Hp. unfold has_perm_of, py_in in *.
    apply bool_decide_eq_true in Hp. apply bool_decide_eq_true.
    rewrite !elem_of_cons in Hp. rewrite !elem_of_cons. tauto.
  - vm_compute. reflexivity.
Defined.

(** ** Regions are taken from the catalog *)

Lemma all_regions_filter_subset (f : Service -> bool) (catalog : list Service)
    (r : option string) :
  r ∈ all_regions (List.filter f catalog) -> r ∈ all_regions catalog.
Proof.
  unfold all_regions. induction catalog as [|s catalog IH]; [done|]. simpl.
  destruct (f s); simpl; rewrite ?elem_of_app; intros H.
  - destruct H as [H|H]; [by left|right; by apply IH].
  - right. by apply IH.
Qed.

(** X26: the selected region always comes from the catalog: whatever the
    cookie says, a region returned by [default_services_region] is the
    region of an endpoint of the catalog. *)
Theorem default_services_region_from_catalog (catalog : option (list Service))
    (request : option Request) (r : string) :
  default_services_region catalog request = Some r ->
  Some r ∈ all_regions (default [] catalog).
Proof.
  destruct catalog as [[|s catalog]|]; [done| |done].
  rewrite default_services_region_unfold.
  change (default [] (Some (s :: catalog))) with (s :: catalog).
  assert (forall x, x ∈ available_regions (s :: catalog) ->
                    x ∈ all_regions (s :: catalog)) as Hsub.
  { intros x. unfold available_regions.
    destruct (all_regions (List.filter typed_non_identity (s :: catalog)))
      as [|first rest] eqn:Hf; [done|].
    rewrite <- Hf. apply all_regions_filter_subset. }
  destruct (available_regions (s :: catalog)) as [|first rest] eqn:Hav; [done|].
  simpl. unfold py_in. case_bool_decide as Hin; simpl.
  - intros Hsel. apply Hsub. by rewrite <- Hsel.
  - intros ->. apply Hsub. left.
Qed.

Lemma default_services_region_from_catalog_example :
  Some "RegionOne" ∈ all_regions [keystone_service; nova_service].
Proof.
  apply (default_services_region_from_catalog
           (Some [keystone_service; nova_service])
           (Some (test_request {[ "services_region" := "Mars" ]})) "RegionOne").
  vm_compute. reflexivity.
Defined.

(** ** An empty project list *)

(** X27: an empty stored project list is never handed out: for a user
    whose stored list is empty, [authorized_tenants] returns a new empty
    list object on each access, without fetching and without changing
    the user. *)
Theorem authorized_tenants_empty_list_is_fresh
    (keystone : nat -> ClientCall -> result (list Project))
    (settings : Settings) (lib : PyLib)
    (check_token_expiration : Token -> result bool)
    (self : User) (stored : nat) (w : World) (b : bool) :
  is_authenticated check_token_expiration self = Ok b ->
  _authorized_tenants self = Some stored ->
  heap w !! stored = Some [] ->
  authorized_tenants keystone settings lib check_token_expiration self w
  = (Ok (List.length (heap w), self),
     {| heap := heap w ++ [[]];
        _PROJECT_CACHE := _PROJECT_CACHE w;
        upstream_calls := upstream_calls w |}) /\
  List.length (heap w) <> stored.
Proof.
  intros Hauth Hset Hobj. split.
  - unfold authorized_tenants, mbind at 1, M_bind at 1, lift.
    rewrite Hauth.
    assert (bool_decide (_authorized_tenants self = None) = false) as ->.
    { rewrite Hset. by apply bool_decide_eq_false_2. }
    rewrite andb_false_r.
    assert ((match token self with
             | Some _ => mret self
             | None => mret self
             end : M User) = mret self) as -> by (by destruct (token self)).
    unfold mbind, M_bind, mret, M_ret, read_list, new_list.
    by rewrite Hset, Hobj.
  - apply lookup_lt_Some in Hobj. lia.
Qed.

Lemma authorized_tenants_empty_list_example :
  (authorized_tenants keystone_faulty test_settings plain_lib always_valid
     (set_authorized_tenants test_user (Some 0%nat))
     {| heap := [[]]; _PROJECT_CACHE := ∅; upstream_calls := 0 |}).1
  = Ok (1%nat, set_authorized_tenants test_user (Some 0%nat)).
Proof.
  destruct (authorized_tenants_empty_list_is_fresh keystone_faulty
              test_settings plain_lib always_valid
              (set_authorized_tenants test_user (Some 0%nat)) 0%nat
              {| heap := [[]]; _PROJECT_CACHE := ∅; upstream_calls := 0 |} true)
    as [Hcall _]; [reflexivity|reflexivity|reflexivity|].
  by rewrite Hcall.
Defined.
